(** * ShaggyDog: the breed extractor and the three-stage transformation chain

    A shallow embedding of [generate_transformation.py] (and of the
    stand-alone [analyze_dog_breed.py]) together with the properties of the
    pipeline that the specification states, followed by the views of
    [app.py] that call the pipeline, serve its files and manage accounts.

    Python values are modelled as follows.
    - [str] is a list of Unicode code points ([N]); literals are written
      [lit "..."].
    - [bytes] is a list of [N] below 256.
    - An exception is a class name and the text [str(e)] gives; only
      subclasses of [Exception] are modelled, so [except Exception] catches
      every [exn].
    - A function that may raise returns a [result]; a function that also
      touches the file system or the remote endpoint runs in the monad [M]
      over an explicit [world].
    - The file system is POSIX as Linux resolves paths, without symbolic
      links, permissions or limits on lengths and space; a path is text the
      file-system encoding accepts.
    - [print] only writes to standard output and is left out. *)

From Stdlib Require Import NArith ZArith List String Ascii Bool Lia.
From stdpp Require Import base decidable option list gmap.

Local Open Scope N_scope.
Local Open Scope list_scope.

(** ** Strings, values, exceptions *)

Abbreviation str := (list N).
Abbreviation bytes := (list N).

Definition lit (s : string) : str :=
  List.map N_of_ascii (list_ascii_of_string s).

(** What an attribute or a variable may hold in the parts of the program
    modelled here: [None] or a [str]. *)
Inductive pyval :=
| PyNone
| PyStr (s : str).

Inductive exn :=
| PyExc (cls : string) (msg : str).

(** [str(e)] *)
Definition str_of_exn (e : exn) : str :=
  match e with PyExc _ msg => msg end.

Inductive result (A : Type) :=
| Ok (a : A)
| Err (e : exn).
Arguments Ok {A} a.
Arguments Err {A} e.

Definition rbind {A B} (m : result A) (k : A -> result B) : result B :=
  match m with
  | Ok a => k a
  | Err e => Err e
  end.

Declare Scope result_scope.
Delimit Scope result_scope with result.
Notation "'let?' x := m 'in' k" := (rbind m (fun x => k))
  (at level 10, x name, m at level 100, k at level 200) : result_scope.

Definition IndexError : exn := PyExc "IndexError" (lit "list index out of range").

(** [l[i]] for a non-negative index: out of range raises [IndexError]. *)
Definition py_index {A} (l : list A) (i : nat) : result A :=
  match nth_error l i with
  | Some x => Ok x
  | None => Err IndexError
  end.

(** ** The Unicode character database

    [str.split()] and [str.isupper()] consult CPython's character tables,
    which are not part of the repository.  The development is parametric in
    them; [ucd_basic] below gives the tables on the code points the examples
    use. *)
Class UnicodeDB := {
  isspace : N -> bool;   (* Py_UNICODE_ISSPACE *)
  isupper : N -> bool    (* str.isupper() on a one-character string *)
}.

Definition in_range (lo hi c : N) : bool := (lo <=? c) && (c <=? hi).

(** White space as CPython defines it; upper case on Basic Latin and the
    Latin-1 supplement (U+0000..U+00FF). *)
Definition basic_isspace (c : N) : bool :=
  in_range 9 13 c || in_range 28 32 c || (c =? 133) || (c =? 160)
  || (c =? 5760) || in_range 8192 8202 c || (c =? 8232) || (c =? 8233)
  || (c =? 8239) || (c =? 8287) || (c =? 12288).

Definition basic_isupper (c : N) : bool :=
  in_range 65 90 c || in_range 192 214 c || in_range 216 222 c.

Definition ucd_basic : UnicodeDB :=
  {| isspace := basic_isspace; isupper := basic_isupper |}.

(** ** The breed extractor *)

Section Extractor.
Context `{UnicodeDB}.

(** [s.split()]: the maximal runs of characters that are not white space,
    in order.  [cur] holds the run being read, last character first. *)
Fixpoint split_go (cur : str) (s : str) : list str :=
  match s with
  | [] => match cur with [] => [] | _ => [rev cur] end
  | c :: s' =>
      if isspace c
      then match cur with
           | [] => split_go [] s'
           | _ => rev cur :: split_go [] s'
           end
      else split_go (c :: cur) s'
  end.

Definition split (s : str) : list str := split_go [] s.

(** generate_transformation.py, lines 45-57.  [last_line] is line 57,
    [words[0] if words else "dog"], reached when neither [if] returns. *)
Definition extract_dog_breed (breed_description : str) : result str :=
  let words := split breed_description in
  let last_line :=
    match words with
    | [] => Ok (lit "dog")
    | _ => py_index words 0
    end in
  if (2 <=? length words)%nat then
    (let? w1 := py_index words 1 in
     let? c := py_index w1 0 in
     if isupper c || (length words =? 2)%nat then
       (let? a := py_index words 0 in
        let? b := py_index words 1 in
        Ok (a ++ lit " " ++ b))
     else last_line)%result
  else last_line.

(** The decision of the code over the tokens [split] gives, without the
    indexing that can raise; the tokens in the specification's words are
    [tokens_of], further down. *)
Definition starts_upper (t : str) : bool :=
  match t with
  | c :: _ => isupper c
  | [] => false
  end.

Definition extract_reference (description : str) : str :=
  let tokens := split description in
  match tokens with
  | t0 :: t1 :: _ =>
      if starts_upper t1 || (length tokens =? 2)%nat
      then t0 ++ lit " " ++ t1
      else t0
  | [t0] => t0
  | [] => lit "dog"
  end.
End Extractor.

(** ** Base64, as the standard library's [base64] module computes it

    [b64encode] is RFC 4648 with padding.  [b64decode] follows
    [binascii.a2b_base64] in its default, lenient mode: characters outside
    the alphabet are skipped, a pad that completes a quad ends the input, and
    a quad left incomplete at the end is an error. *)

Definition b64_char (i : N) : N :=
  if i <? 26 then 65 + i
  else if i <? 52 then 71 + i
  else if i <? 62 then i - 4
  else if i =? 62 then 43
  else 47.

Definition b64_index (c : N) : option N :=
  if in_range 65 90 c then Some (c - 65)
  else if in_range 97 122 c then Some (c - 71)
  else if in_range 48 57 c then Some (c + 4)
  else if c =? 43 then Some 62
  else if c =? 47 then Some 63
  else None.

Definition b64_pad : N := 61.

Fixpoint b64encode (s : bytes) : str :=
  match s with
  | a :: b :: c :: rest =>
      b64_char (a / 4) :: b64_char ((a mod 4) * 16 + b / 16)
      :: b64_char ((b mod 16) * 4 + c / 64) :: b64_char (c mod 64)
      :: b64encode rest
  | [a; b] =>
      [b64_char (a / 4); b64_char ((a mod 4) * 16 + b / 16);
       b64_char ((b mod 16) * 4); b64_pad]
  | [a] => [b64_char (a / 4); b64_char ((a mod 4) * 16); b64_pad; b64_pad]
  | [] => []
  end.

Definition binascii_Error (msg : string) : exn := PyExc "binascii.Error" (lit msg).

(** The decoder's loop: [quad_pos] counts the characters of the current quad,
    [leftchar] holds its bits not yet written, [pads] the pads seen since the
    last data character, [out] the bytes written, last first. *)
Fixpoint a2b_go (s : str) (quad_pos leftchar pads : N) (out : bytes) : result bytes :=
  match s with
  | [] =>
      if quad_pos =? 0 then Ok (rev out)
      else if quad_pos =? 1 then
        Err (binascii_Error "Invalid base64-encoded string: number of data characters cannot be 1 more than a multiple of 4")
      else Err (binascii_Error "Incorrect padding")
  | this_ch :: s' =>
      if this_ch =? b64_pad then
        if 2 <=? quad_pos then
          if 4 <=? quad_pos + (pads + 1) then Ok (rev out)
          else a2b_go s' quad_pos leftchar (pads + 1) out
        else a2b_go s' quad_pos leftchar pads out
      else
        match b64_index this_ch with
        | None => a2b_go s' quad_pos leftchar pads out
        | Some v =>
            if quad_pos =? 0 then a2b_go s' 1 v 0 out
            else if quad_pos =? 1 then
              a2b_go s' 2 (v mod 16) 0 ((leftchar * 4 + v / 16) :: out)
            else if quad_pos =? 2 then
              a2b_go s' 3 (v mod 4) 0 ((leftchar * 16 + v / 4) :: out)
            else a2b_go s' 0 0 0 ((leftchar * 64 + v) :: out)
        end
  end.

Definition a2b_base64 (s : str) : result bytes := a2b_go s 0 0 0 [].

(** [base64.b64decode(v)]: [None] is a [TypeError], a [str] with a character
    outside ASCII a [ValueError]. *)
Definition b64decode (v : pyval) : result bytes :=
  match v with
  | PyNone =>
      Err (PyExc "TypeError"
             (lit "argument should be a bytes-like object or ASCII string, not 'NoneType'"))
  | PyStr s =>
      if forallb (fun c => c <? 128) s then a2b_base64 s
      else Err (PyExc "ValueError"
                  (lit "string argument should contain only ASCII characters"))
  end.

(** ** The remote endpoint's requests and responses *)

Inductive content_part :=
| input_text (text : str)
| input_image (image_url : str).

Record message := { role : str; content : list content_part }.

(** The [input] argument: a list of messages or a bare prompt. *)
Inductive request_input :=
| InputMessages (msgs : list message)
| InputPrompt (prompt : str).

Record tool := { tool_type : str; action : str; input_fidelity : str }.

(** One call of [client.responses.create]; an argument the call does not
    pass is [None] (or the empty list, for [tools]). *)
Record request := {
  model : str;
  previous_response_id : option str;
  input : request_input;
  tools : list tool
}.

(** An item of [response.output].  An attribute is absent ([None]) or holds
    a value, which may itself be Python's [None]. *)
Record output_item := {
  item_type : option pyval;
  item_result : option pyval
}.

Record response := {
  resp_id : str;
  resp_output : list output_item;
  resp_output_text : str
}.

(** ** Paths *)

Definition sep : N := 47.

(** [b.startswith("/")] and [a.endswith("/")] *)
Definition startswith_sep (b : str) : bool :=
  match b with
  | c :: _ => c =? sep
  | [] => false
  end.

Definition endswith_sep (a : str) : bool :=
  match last a with
  | Some c => c =? sep
  | None => false
  end.

(** [not l] for a list or a string. *)
Definition py_not {A} (l : list A) : bool :=
  match l with
  | [] => true
  | _ => false
  end.

(** [os.path.join(a, b)] on POSIX. *)
Definition os_path_join (a b : str) : str :=
  if startswith_sep b then b
  else if py_not a || endswith_sep a then a ++ b
  else a ++ sep :: b.

(** [s.split("/")]: the segments between the separators; empty segments are
    kept, and the result is never the empty list. *)
Fixpoint split_on_sep (cur : str) (s : str) : list str :=
  match s with
  | [] => [rev cur]
  | c :: s' =>
      if c =? sep then rev cur :: split_on_sep [] s'
      else split_on_sep (c :: cur) s'
  end.

Definition split_sep (s : str) : list str := split_on_sep [] s.

(** [posixpath.split(p)]: [p] is cut after its last slash; the slashes that
    end the head are stripped unless the head is nothing but slashes. *)
Fixpoint cut_last_sep (p : str) : str * str :=
  match p with
  | [] => ([], [])
  | c :: p' =>
      match cut_last_sep p' with
      | ([], t) => if c =? sep then ([c], t) else ([], c :: t)
      | (h, t) => (c :: h, t)
      end
  end.

Fixpoint rstrip_sep (s : str) : str :=
  match s with
  | [] => []
  | c :: s' =>
      match rstrip_sep s' with
      | [] => if c =? sep then [] else [c]
      | r => c :: r
      end
  end.

Definition all_sep (s : str) : bool := forallb (N.eqb sep) s.

Definition posix_split (p : str) : str * str :=
  let (head, tail) := cut_last_sep p in
  (if negb (py_not head) && negb (all_sep head) then rstrip_sep head else head,
   tail).

Definition dot : str := lit ".".
Definition dotdot : str := lit "..".

(** The names a path is made of: what stands between its slashes, the empty
    segments left out. *)
Definition path_names (path : str) : list str :=
  List.filter (fun n => negb (py_not n)) (split_sep path).

(** ** The world: the file system, the endpoint and the calls made to it

    A location is the list of the names that lead to it from the root
    directory; the root, [[]], is always a directory.  [files] holds the
    regular files and [dirs] the directories, by location; [cwd] is the
    working directory of the process.

    The endpoint answers each call from the whole log of calls so far (the
    last entry is the call being answered): it returns a response or
    raises. *)
Abbreviation loc := (list str).

Record world := {
  files : gmap loc bytes;
  dirs : gset loc;
  cwd : loc;
  endpoint : list request -> result response;
  calls : list request
}.

Definition set_files (w : world) (fs : gmap loc bytes) : world :=
  {| files := fs; dirs := dirs w; cwd := cwd w;
     endpoint := endpoint w; calls := calls w |}.

Definition set_dirs (w : world) (ds : gset loc) : world :=
  {| files := files w; dirs := ds; cwd := cwd w;
     endpoint := endpoint w; calls := calls w |}.

Definition log_call (w : world) (req : request) : world :=
  {| files := files w; dirs := dirs w; cwd := cwd w; endpoint := endpoint w;
     calls := calls w ++ [req] |}.

Definition M (A : Type) : Type := world -> result A * world.

Definition ret {A} (a : A) : M A := fun w => (Ok a, w).

Definition raise {A} (e : exn) : M A := fun w => (Err e, w).

Definition bind {A B} (m : M A) (k : A -> M B) : M B :=
  fun w => match m w with
           | (Ok a, w') => k a w'
           | (Err e, w') => (Err e, w')
           end.

(** [try: m  except Exception as e: handler(e)] *)
Definition try_except {A} (m : M A) (handler : exn -> M A) : M A :=
  fun w => match m w with
           | (Ok a, w') => (Ok a, w')
           | (Err e, w') => handler e w'
           end.

Definition lift {A} (r : result A) : M A := fun w => (r, w).

Declare Scope M_scope.
Delimit Scope M_scope with M.
Notation "'let*' x := m 'in' k" := (bind m (fun x => k))
  (at level 10, x name, m at level 100, k at level 200) : M_scope.
Notation "m1 ';;' m2" := (bind m1 (fun _ => m2))
  (at level 100, m2 at level 200, only parsing, right associativity) : M_scope.

Definition Exception (msg : str) : exn := PyExc "Exception" msg.

Definition ValueError (msg : str) : exn := PyExc "ValueError" msg.

(** *** Looking a path up *)

Inductive errno := ENOENT | ENOTDIR | EISDIR | EEXIST.

Definition os_error (cls msg : string) (path : str) : exn :=
  PyExc cls (lit msg ++ path ++ lit "'").

(** The [OSError] raised for an error number, with [str(e)] as Python
    prints it. *)
Definition os_error_of (e : errno) (path : str) : exn :=
  match e with
  | ENOENT => os_error "FileNotFoundError" "[Errno 2] No such file or directory: '" path
  | ENOTDIR => os_error "NotADirectoryError" "[Errno 20] Not a directory: '" path
  | EISDIR => os_error "IsADirectoryError" "[Errno 21] Is a directory: '" path
  | EEXIST => os_error "FileExistsError" "[Errno 17] File exists: '" path
  end.

(** [except OSError] and [except FileExistsError] *)
Definition is_os_error (e : exn) : bool :=
  match e with
  | PyExc cls _ =>
      existsb (String.eqb cls)
        ["FileNotFoundError"; "NotADirectoryError"; "IsADirectoryError";
         "FileExistsError"]%string
  end.

Definition is_file_exists_error (e : exn) : bool :=
  match e with PyExc cls _ => String.eqb cls "FileExistsError" end.

(** A path with a NUL character is refused before the system is asked. *)
Definition has_null (path : str) : bool := existsb (N.eqb 0) path.

Definition embedded_null_byte : exn := ValueError (lit "embedded null byte").

Definition is_dir (w : world) (l : loc) : bool :=
  bool_decide (l = [] \/ l ∈ dirs w).

(** One name further from the directory [cur]. *)
Definition step (cur : loc) (name : str) : loc :=
  if decide (name = dot) then cur
  else if decide (name = dotdot) then removelast cur
  else cur ++ [name].

Inductive reached :=
| At (l : loc)
| Fails (e : errno).

(** The names are looked up one after the other; a name is looked up in a
    directory only.  Where the last name leads need not exist. *)
Fixpoint walk (w : world) (cur : loc) (names : list str) : reached :=
  match names with
  | [] => At cur
  | name :: rest =>
      if is_dir w cur then walk w (step cur name) rest
      else Fails (match files w !! cur with
                  | Some _ => ENOTDIR
                  | None => ENOENT
                  end)
  end.

(** Where a path leads: from the root when it starts with a slash, from the
    working directory otherwise; the empty path leads nowhere. *)
Definition locate (w : world) (path : str) : reached :=
  if py_not path then Fails ENOENT
  else walk w (if startswith_sep path then [] else cwd w) (path_names path).

(** The path says by its form that it names a directory: it has no name (it
    is the root) or ends in [.] or [..]; the parent of a directory is a
    directory. *)
Definition names_a_directory (path : str) : bool :=
  match last (path_names path) with
  | Some n => bool_decide (n = dot \/ n = dotdot)
  | None => true
  end.

Inductive entry :=
| RegularFile (data : bytes)
| Directory.

(** [os.stat(path)], as far as the program looks at it. *)
Definition stat (path : str) (w : world) : result entry :=
  if has_null path then Err embedded_null_byte
  else match locate w path with
       | Fails e => Err (os_error_of e path)
       | At l =>
           if is_dir w l then Ok Directory
           else match files w !! l with
                | Some data =>
                    if endswith_sep path then Err (os_error_of ENOTDIR path)
                    else Ok (RegularFile data)
                | None => Err (os_error_of ENOENT path)
                end
       end.

(** [os.path.exists(path)] and [os.path.isdir(path)] *)
Definition path_exists (path : str) (w : world) : bool :=
  match stat path w with
  | Ok _ => true
  | Err _ => false
  end.

Definition path_isdir (path : str) (w : world) : bool :=
  match stat path w with
  | Ok Directory => true
  | _ => false
  end.

(** *** Reading, writing, making directories *)

(** [open(path, "rb").read()] *)
Definition read_file (path : str) : M bytes :=
  fun w =>
    match stat path w with
    | Ok (RegularFile data) => (Ok data, w)
    | Ok Directory => (Err (os_error_of EISDIR path), w)
    | Err e => (Err e, w)
    end.

(** Where [open(path, "wb")] creates or truncates a file, or the error it
    raises: a path that ends in a slash or names a directory is refused. *)
Definition slot (path : str) (w : world) : result loc :=
  if has_null path then Err embedded_null_byte
  else match locate w path with
       | Fails e => Err (os_error_of e path)
       | At l =>
           if endswith_sep path || names_a_directory path || is_dir w l
           then Err (os_error_of EISDIR path)
           else Ok l
       end.

(** [open(path, "wb")]: the file is created, or truncated if it exists; the
    value is the open file. *)
Definition open_wb (path : str) : M loc :=
  fun w =>
    match slot path w with
    | Ok l => (Ok l, set_files w (<[l := []]> (files w)))
    | Err e => (Err e, w)
    end.

(** [f.write(data)] on the open file [f]. *)
Definition file_write (f : loc) (data : bytes) : M unit :=
  fun w =>
    match files w !! f with
    | Some old => (Ok tt, set_files w (<[f := old ++ data]> (files w)))
    | None => (Err (ValueError (lit "I/O operation on closed file")), w)
    end.

(** [os.mkdir(path)] *)
Definition mkdir (path : str) : M unit :=
  fun w =>
    if has_null path then (Err embedded_null_byte, w)
    else match locate w path with
         | Fails e => (Err (os_error_of e path), w)
         | At l =>
             if names_a_directory path || is_dir w l
                || bool_decide (is_Some (files w !! l))
             then (Err (os_error_of EEXIST path), w)
             else (Ok tt, set_dirs w ({[l]} ∪ dirs w))
         end.

(** [try: mkdir(name)  except OSError: if not path.isdir(name): raise]
    (os.py, the end of [makedirs] with [exist_ok=True]) *)
Definition mkdir_exist_ok (name : str) : M unit :=
  fun w =>
    match mkdir name w with
    | (Err e, w') =>
        if is_os_error e && path_isdir name w' then (Ok tt, w') else (Err e, w')
    | r => r
    end.

(** [try: m  except FileExistsError: pass] *)
Definition except_file_exists (m : M unit) : M unit :=
  fun w =>
    match m w with
    | (Err e, w') => if is_file_exists_error e then (Ok tt, w') else (Err e, w')
    | r => r
    end.

(** [os.makedirs(name, exist_ok=True)] as os.py defines it.  The path is
    split into head and tail, the head once more when the tail is empty;
    the head is made first when it does not exist, then the directory
    itself.  Every recursive call is on a shorter path, so the length of the
    path is fuel enough. *)
Definition makedirs_split (name : str) : str * str :=
  let (head, tail) := posix_split name in
  if py_not tail then posix_split head else (head, tail).

Fixpoint makedirs_go (fuel : nat) (name : str) : M unit :=
  let (head, tail) := makedirs_split name in
  fun w =>
    if negb (py_not head) && negb (py_not tail) && negb (path_exists head w) then
      match fuel with
      | O => mkdir_exist_ok name w
      | S fuel' =>
          (except_file_exists (makedirs_go fuel' head) ;;
           if decide (tail = dot) then ret tt else mkdir_exist_ok name)%M w
      end
    else mkdir_exist_ok name w.

Definition makedirs (name : str) : M unit := makedirs_go (length name) name.

(** [client.responses.create(...)]: the call is logged, then answered. *)
Definition responses_create (req : request) : M response :=
  fun w => (endpoint w (calls w ++ [req]), log_call w req).

(** ** The classifier (generate_transformation.py, lines 13-43) *)

Definition data_uri (base64_image : str) : str :=
  lit "data:image/jpeg;base64," ++ base64_image.

Definition classification_request (base64_image : str) : request :=
  {| model := lit "gpt-5-mini-2025-08-07";
     previous_response_id := None;
     input := InputMessages
       [ {| role := lit "user";
            content :=
              [ input_text (lit "Analyze this human face and determine which specific dog breed this person's facial features, structure, and overall appearance most closely resembles. Consider factors like face shape, eye shape, nose structure, ear position, and overall facial proportions. Respond with just the dog breed name and a brief one-sentence explanation of why.");
                input_image (data_uri base64_image) ] |} ];
     tools := [] |}.

(** The body of the [try] block, the same in both files. *)
Definition classify_body (image_path : str) : M str :=
  (let* image_data := read_file image_path in
   let base64_image := b64encode image_data in
   let* response := responses_create (classification_request base64_image) in
   ret (resp_output_text response))%M.

Definition analyze_dog_breed (image_path : str) : M str :=
  try_except (classify_body image_path)
    (fun e => raise (Exception (lit "Error analyzing dog breed: " ++ str_of_exn e))).

(** analyze_dog_breed.py, lines 12-42: the stand-alone script's function of
    the same name. *)
Module AnalyzeDogBreedScript.
Definition analyze_dog_breed (image_path : str) : M str :=
  try_except (classify_body image_path)
    (fun e => ret (lit "Error: " ++ str_of_exn e)).
End AnalyzeDogBreedScript.

(** ** The transformation chain (generate_transformation.py, lines 59-201) *)

Definition prompt1 (dog_breed : str) : str :=
  lit "Transform this person's face to have very subtle " ++ dog_breed
  ++ lit " dog-like features - slightly more pronounced nose, subtle changes around the eyes and mouth, but maintain the human appearance overall. Keep the same pose, expression, and lighting.".

Definition prompt2 (dog_breed : str) : str :=
  lit "Transform this image to be halfway between human and " ++ dog_breed
  ++ lit " dog - blend human and canine features more prominently. The face should show clear dog characteristics while maintaining some human-like structure. Keep the same pose and composition.".

Definition prompt3 (dog_breed : str) : str :=
  lit "Transform this into a realistic " ++ dog_breed
  ++ lit " dog portrait that maintains the same pose, expression, and composition as the original person. The dog should have the same general facial structure and expression, but as a fully formed "
  ++ dog_breed ++ lit " dog.".

Definition image_generation_tool (act : string) : tool :=
  {| tool_type := lit "image_generation"; action := lit act;
     input_fidelity := lit "high" |}.

(** Lines 84-97. *)
Definition stage1_request (prompt base64_image : str) : request :=
  {| model := lit "gpt-5";
     previous_response_id := None;
     input := InputMessages
       [ {| role := lit "user";
            content := [ input_text prompt;
                         input_image (data_uri base64_image) ] |} ];
     tools := [image_generation_tool "auto"] |}.

(** Lines 120-125 and 146-151. *)
Definition edit_request (previous : str) (prompt : str) : request :=
  {| model := lit "gpt-5";
     previous_response_id := Some previous;
     input := InputPrompt prompt;
     tools := [image_generation_tool "edit"] |}.

(** What the comprehension keeps of one output item: its [result], when the
    item has a [type] equal to ["image_generation_call"] and has a [result]
    attribute. *)
Definition image_generation_result (output : output_item) : option pyval :=
  match item_type output with
  | Some (PyStr t) =>
      if decide (t = lit "image_generation_call") then item_result output
      else None
  | _ => None
  end.

(** [[output.result for output in response.output if ...]] *)
Definition image_data_of (r : response) : list pyval :=
  omap image_generation_result (resp_output r).

Definition raise_if (b : bool) (e : exn) : M unit :=
  if b then raise e else ret tt.

Definition failed_to_generate (stage : string) : exn :=
  Exception (lit "Failed to generate image " ++ lit stage).

Abbreviation manifest := (list (str * pyval)).

(** Lines 72-180: the three generation stages; the value is
    [generated_images] as it stands before the images are saved. *)
Definition run_stages (image_path dog_breed : str) : M manifest :=
  (let* image_data := read_file image_path in
   let base64_image := b64encode image_data in
   let generated_images := [] in
   let* response1 :=
     try_except
       (responses_create (stage1_request (prompt1 dog_breed) base64_image))
       raise in
   let image1_data := image_data_of response1 in
   raise_if (py_not image1_data) (failed_to_generate "1") ;;
   let* image1_base64 := lift (py_index image1_data 0) in
   let generated_images :=
     generated_images ++ [(lit "image1_transition.png", image1_base64)] in
   let* response2 :=
     responses_create (edit_request (resp_id response1) (prompt2 dog_breed)) in
   let image2_data := image_data_of response2 in
   raise_if (py_not image2_data) (failed_to_generate "2") ;;
   let* image2_base64 := lift (py_index image2_data 0) in
   let generated_images :=
     generated_images ++ [(lit "image2_transition.png", image2_base64)] in
   let* response3 :=
     try_except
       (responses_create (edit_request (resp_id response2) (prompt3 dog_breed)))
       raise in
   let image3_data := image_data_of response3 in
   raise_if (py_not image3_data) (failed_to_generate "3") ;;
   let* image3_base64 := lift (py_index image3_data 0) in
   let generated_images :=
     generated_images ++ [(lit "image3_final_dog.png", image3_base64)] in
   ret generated_images)%M.

(** [with open(filepath, "wb") as f: f.write(base64.b64decode(image_base64))] *)
Definition write_image (filepath : str) (image_base64 : pyval) : M unit :=
  (let* f := open_wb filepath in
   let* data := lift (b64decode image_base64) in
   file_write f data)%M.

(** Lines 188-193: the loop of the branch with an output directory. *)
Fixpoint save_to_dir (output_dir : str) (generated_images saved_paths : manifest)
  : M manifest :=
  match generated_images with
  | [] => ret saved_paths
  | (filename, image_base64) :: rest =>
      (let filepath := os_path_join output_dir filename in
       write_image filepath image_base64 ;;
       save_to_dir output_dir rest (saved_paths ++ [(filepath, image_base64)]))%M
  end.

(** Lines 197-200: the loop of the branch without one. *)
Fixpoint save_to_cwd (generated_images : manifest) : M unit :=
  match generated_images with
  | [] => ret tt
  | (filename, image_base64) :: rest =>
      (write_image filename image_base64 ;; save_to_cwd rest)%M
  end.

(** Lines 183-201.  [output_dir] is [None] or a [str]; the empty string is
    falsy. *)
Definition save_images (output_dir : option str) (generated_images : manifest)
  : M manifest :=
  match output_dir with
  | Some (c :: d) =>
      (makedirs (c :: d) ;; save_to_dir (c :: d) generated_images [])%M
  | _ => (save_to_cwd generated_images ;; ret generated_images)%M
  end.

Definition generate_progressive_images
    (image_path dog_breed : str) (output_dir : option str) : M manifest :=
  (let* generated_images := run_stages image_path dog_breed in
   save_images output_dir generated_images)%M.

(** ** Notions the properties are stated with *)

(** [s] holds bytes: every element is below 256. *)
Definition is_bytes (s : bytes) : Prop := Forall (fun b => b < 256) s.

Definition b64_char_ok (i : N) : bool :=
  match b64_index (b64_char i) with
  | Some j => (j =? i) && negb (b64_char i =? b64_pad) && (b64_char i <? 128)
  | None => false
  end.

(** A sextet's character is in the alphabet at the sextet's index, is not
    the pad, and is ASCII. *)
Record b64_digit (c v : N) : Prop := {
  digit_index : b64_index c = Some v;
  digit_not_pad : (c =? b64_pad) = false;
  digit_ascii : (c <? 128) = true
}.

(** What one stage makes of the endpoint's reply: the response and the first
    extracted image, or the error raised. *)
Definition stage_outcome (stage : string) (reply : result response)
  : result (response * pyval) :=
  match reply with
  | Err e => Err e
  | Ok resp =>
      match image_data_of resp with
      | [] => Err (failed_to_generate stage)
      | p :: _ => Ok (resp, p)
      end
  end.

(** The three requests of a run, given what came before each. *)
Definition request1 (dog_breed : str) (image_data : bytes) : request :=
  stage1_request (prompt1 dog_breed) (b64encode image_data).
Definition request2 (dog_breed : str) (response1 : response) : request :=
  edit_request (resp_id response1) (prompt2 dog_breed).
Definition request3 (dog_breed : str) (response2 : response) : request :=
  edit_request (resp_id response2) (prompt3 dog_breed).

(** [run_stages] as a decision tree over the endpoint's replies. *)
Definition stages_tree (image_path dog_breed : str) (w : world)
  : result manifest * world :=
  match fst (read_file image_path w) with
  | Err e => (Err e, w)
  | Ok image_data =>
      let w1 := log_call w (request1 dog_breed image_data) in
      match stage_outcome "1" (endpoint w (calls w1)) with
      | Err e => (Err e, w1)
      | Ok (resp1, p1) =>
          let w2 := log_call w1 (request2 dog_breed resp1) in
          match stage_outcome "2" (endpoint w (calls w2)) with
          | Err e => (Err e, w2)
          | Ok (resp2, p2) =>
              let w3 := log_call w2 (request3 dog_breed resp2) in
              match stage_outcome "3" (endpoint w (calls w3)) with
              | Err e => (Err e, w3)
              | Ok (resp3, p3) =>
                  (Ok [(lit "image1_transition.png", p1);
                       (lit "image2_transition.png", p2);
                       (lit "image3_final_dog.png", p3)], w3)
              end
          end
      end
  end.

(** The images a request attaches. *)
Definition attached_images (req : request) : list str :=
  match input req with
  | InputPrompt _ => []
  | InputMessages msgs =>
      flat_map (fun m => flat_map (fun part => match part with
                                               | input_image url => [url]
                                               | input_text _ => []
                                               end) (content m)) msgs
  end.

(** Where the save step writes the file named [filename]. *)
Definition destination (output_dir : option str) (filename : str) : str :=
  match output_dir with
  | Some (c :: d) => os_path_join (c :: d) filename
  | _ => filename
  end.

Fixpoint up_to_sep (s : str) : str :=
  match s with
  | [] => []
  | c :: s' => if c =? sep then [] else c :: up_to_sep s'
  end.

(** [os.path.basename(p)] on POSIX: what follows the last slash. *)
Definition basename (p : str) : str := rev (up_to_sep (rev p)).

(** [sep not in s] *)
Definition no_sep (s : str) : bool := forallb (fun c => negb (c =? sep)) s.

Definition stage_filenames : list str :=
  [lit "image1_transition.png"; lit "image2_transition.png";
   lit "image3_final_dog.png"].

(** The failure of a classification call: the file read raises [e], or the
    read succeeds and the endpoint raises [e] on the classification request. *)
Definition classify_failure (image_path : str) (w : world) (e : exn) : Prop :=
  fst (read_file image_path w) = Err e
  \/ exists image_data,
       fst (read_file image_path w) = Ok image_data
       /\ endpoint w (calls w ++ [classification_request (b64encode image_data)])
          = Err e.

(** Stage [stage] fails with [e] on the endpoint's [reply]: the call raised
    [e], or the response has no item the comprehension keeps and [e] is the
    failure numbered [stage]. *)
Definition stage_fails (stage : string) (reply : result response) (e : exn)
  : Prop :=
  reply = Err e
  \/ exists resp, reply = Ok resp /\ image_data_of resp = []
                  /\ e = failed_to_generate stage.

(** An output item of the image-generation kind that carries a result, in
    the words of the claim: the item has a [type], which is the string
    ["image_generation_call"], and it has a [result], which is [p]. *)
Definition image_kind_with_result (item : output_item) (p : pyval) : Prop :=
  item_type item = Some (PyStr (lit "image_generation_call"))
  /\ item_result item = Some p.

(** [item] is the first item of [resp.output] of the image-generation kind
    that carries a result, and [p] is that result: no item before it is of
    that kind with a result, and what follows it is not constrained. *)
Definition first_image_item (resp : response) (p : pyval) : Prop :=
  exists before item after,
    resp_output resp = before ++ item :: after
    /\ Forall (fun o => forall q, ~ image_kind_with_result o q) before
    /\ image_kind_with_result item p.

(** ** Worlds the examples run in *)

Definition image_item (result : pyval) : output_item :=
  {| item_type := Some (PyStr (lit "image_generation_call"));
     item_result := Some result |}.

Definition message_item : output_item :=
  {| item_type := Some (PyStr (lit "message")); item_result := None |}.

(** The reply to the last call of [log], with the given output items. *)
Definition reply (log : list request) (items : list output_item) : response :=
  {| resp_id := lit "resp_" ++ [48 + N.of_nat (length log)];
     resp_output := items;
     resp_output_text := lit "Pug. The round face and wide-set eyes." |}.

Definition photo : bytes := [255; 216; 255; 224].

(** The working directory [/srv/app] holds the photo [me.jpg]. *)
Definition app_home : loc := [lit "srv"; lit "app"].

Definition world_with (ep : list request -> result response) : world :=
  {| files := {[ app_home ++ [lit "me.jpg"] := photo ]};
     dirs := {[ [lit "srv"]; app_home ]};
     cwd := app_home;
     endpoint := ep;
     calls := [] |}.

(** Every call is answered with a message and two images. *)
Definition world_two_images : world :=
  world_with (fun log =>
    Ok (reply log [message_item;
                   image_item (PyStr (b64encode [N.of_nat (length log); 1]));
                   image_item (PyStr (b64encode [N.of_nat (length log); 2]))])).

(** An item that is not of the image-generation kind although it carries a
    result. *)
Definition tool_item : output_item :=
  {| item_type := Some (PyStr (lit "mcp_call"));
     item_result := Some (PyStr (lit "done")) |}.

(** Every call is answered with a tool item, then two images. *)
Definition world_mixed_items : world :=
  world_with (fun log =>
    Ok (reply log [tool_item;
                   image_item (PyStr (b64encode [N.of_nat (length log); 1]));
                   image_item (PyStr (b64encode [N.of_nat (length log); 2]))])).

(** Every call is answered with an image-generation item whose [result] is
    [None]. *)
Definition world_none_result : world :=
  world_with (fun log => Ok (reply log [image_item PyNone])).

(** Every call is answered with an image-generation item whose [result] is
    the empty string. *)
Definition world_empty_result : world :=
  world_with (fun log => Ok (reply log [image_item (PyStr [])])).

Definition connection_error : exn :=
  PyExc "APIConnectionError" (lit "Connection error.").

(** The endpoint is unreachable. *)
Definition world_down : world := world_with (fun _ => Err connection_error).

(** The endpoint answers the first [n] calls and is unreachable afterwards. *)
Definition world_down_after (n : nat) : world :=
  world_with (fun log =>
    if (length log <=? n)%nat
    then Ok (reply log [image_item (PyStr (b64encode [1]))])
    else Err connection_error).

(** ** The command-line entry point (generate_transformation.py, lines 203-238) *)

Definition main `{UnicodeDB} (image_path : str) : M manifest :=
  (let* breed_description := analyze_dog_breed image_path in
   let* dog_breed := lift (extract_dog_breed breed_description) in
   try_except (generate_progressive_images image_path dog_breed None) raise)%M.

(** ** Notions for the save step *)

(** Both save loops write the images in order, the file of [filename] at
    [dest filename], and stop at the first write that raises. *)
Fixpoint save_fold (dest : str -> str) (gi : manifest) (w : world)
  : result unit * world :=
  match gi with
  | [] => (Ok tt, w)
  | (filename, image_base64) :: rest =>
      match write_image (dest filename) image_base64 w with
      | (Ok _, w1) => save_fold dest rest w1
      | (Err e, w1) => (Err e, w1)
      end
  end.

(** The files [items] (location and content) written in order. *)
Definition write_all (items : list (loc * bytes)) (fs : gmap loc bytes)
  : gmap loc bytes :=
  foldl (fun fs it => <[fst it := snd it]> fs) fs items.

(** [items] are the images [gi] decoded, each at the location where its
    destination is opened for writing in [w]. *)
Definition decoded_at (w : world) (dest : str -> str) (gi : manifest)
    (items : list (loc * bytes)) : Prop :=
  Forall2 (fun g it => slot (dest (fst g)) w = Ok (fst it)
                       /\ b64decode (snd g) = Ok (snd it))
    gi items.

(** A plain name: not empty, without a slash or a NUL, and neither [.] nor
    [..]. *)
Definition plain_name (n : str) : bool :=
  negb (py_not n) && no_sep n && negb (has_null n)
  && negb (bool_decide (n = dot)) && negb (bool_decide (n = dotdot)).

(** ["/".join(parts)] *)
Fixpoint join_sep (parts : list str) : str :=
  match parts with
  | [] => []
  | [p] => p
  | p :: rest => p ++ sep :: join_sep rest
  end.



(** The two facts about CPython's white-space table that the extractor's
    idempotence rests on: the space is white space, the letters of the
    fallback label are not. *)
Definition space_table_as_ascii `{UnicodeDB} : Prop :=
  isspace 32 = true /\ Forall (fun c => isspace c = false) (lit "dog").

(** [t] holds no white space. *)
Definition no_space `{UnicodeDB} (t : str) : Prop :=
  Forall (fun c => isspace c = false) t.

(** [ws] is white space only. *)
Definition all_space `{UnicodeDB} (ws : str) : Prop :=
  Forall (fun c => isspace c = true) ws.

(** "Split on whitespace into tokens", as the specification words it and
    without the code's [split]: the text is white space only and has no
    token; or it is white space, then a token (characters that are not
    white space, at least one) which ends the text; or it is white space, a
    token, a white-space character, and a rest whose tokens follow. *)
Inductive tokens_of `{UnicodeDB} : str -> list str -> Prop :=
| tokens_none (ws : str) :
    all_space ws -> tokens_of ws []
| tokens_last (ws t : str) :
    all_space ws -> t <> [] -> no_space t -> tokens_of (ws ++ t) [t]
| tokens_more (ws t : str) (c : N) (rest : str) (ts : list str) :
    all_space ws -> t <> [] -> no_space t -> isspace c = true ->
    tokens_of rest ts ->
    tokens_of (ws ++ t ++ c :: rest) (t :: ts).

(** The label the specification's algorithm makes of the tokens: the first
    two joined by one space when there are two or more of which the second
    begins with an upper-case letter, or exactly two; otherwise the first;
    ["dog"] when there is none. *)
Definition label_of_tokens `{UnicodeDB} (tokens : list str) : str :=
  match tokens with
  | [] => lit "dog"
  | [t0] => t0
  | t0 :: t1 :: rest =>
      if starts_upper t1 || bool_decide (rest = [])
      then t0 ++ lit " " ++ t1
      else t0
  end.

(** ** Serving files (app.py, lines 213-251)

    [serve_image] and [serve_upload] have the same body up to the folder;
    [serve_from] is that body, for the authenticated user [@login_required]
    lets through, whose [current_user.id] is [current_user_id], up to its
    last call: it ends in a flashed message and a redirect, or in the call
    [send_from_directory(directory, path)], whose outcome is the view's.
    [respond] adds the outcome of that call, and [serve_image_response] and
    [serve_upload_response] are the views as a whole. *)

(** CPython's digit tables, which are not part of the repository:
    [isdigit_char] is [Py_UNICODE_ISDIGIT], [decimal_value] is
    [Py_UNICODE_TODECIMAL] ([None] where it answers -1), and
    [int_max_str_digits] is the interpreter's limit on the digits of a
    converted string (0 for no limit, which is also how an interpreter
    without the limit behaves; otherwise at least 640).  On ASCII the digits
    are ["0"] to ["9"], with their values. *)
Class DigitDB := {
  isdigit_char : N -> bool;
  decimal_value : N -> option N;
  int_max_str_digits : nat;
  ascii_isdigit : forall c, c < 128 -> isdigit_char c = in_range 48 57 c;
  ascii_decimal : forall c, in_range 48 57 c = true -> decimal_value c = Some (c - 48);
  max_str_digits_valid : (int_max_str_digits = 0 \/ 640 <= int_max_str_digits)%nat
}.

(** The tables restricted to ASCII, with CPython's default limit. *)
Definition ascii_isdigit_char (c : N) : bool := in_range 48 57 c.

Definition ascii_decimal_value (c : N) : option N :=
  if in_range 48 57 c then Some (c - 48) else None.

Section Serving.
Context `{DigitDB}.

(** [s.isdigit()]: [s] is not empty and all its characters are digits. *)
Definition isdigit (s : str) : bool := negb (py_not s) && forallb isdigit_char s.

Fixpoint decimal_values (s : str) : option (list N) :=
  match s with
  | [] => Some []
  | c :: s' =>
      match decimal_value c, decimal_values s' with
      | Some d, Some ds => Some (d :: ds)
      | _, _ => None
      end
  end.

(** [int(s)] for a string that passed [s.isdigit()], the only strings line
    220 converts: every character stands for its decimal value, a digit
    character without one (a superscript, say) makes the literal invalid,
    and a string with more digits than the limit is refused (the text of
    that error, which goes on with the two counts, is cut short). *)
Definition invalid_literal (s : str) : exn :=
  ValueError (lit "invalid literal for int() with base 10: '" ++ s ++ lit "'").

Definition py_int (s : str) : result Z :=
  if py_not s then Err (invalid_literal s)
  else match decimal_values s with
       | None => Err (invalid_literal s)
       | Some ds =>
           if negb (int_max_str_digits =? 0)%nat
              && (int_max_str_digits <? length ds)%nat
           then Err (ValueError (lit "Exceeds the limit for integer string conversion"))
           else Ok (Z.of_N (foldl (fun v d => 10 * v + d) 0 ds))
       end.

(** What a view function ends in: [flash(message, category)] followed by
    [redirect(url_for(endpoint))], or the call
    [send_from_directory(directory, path)]. *)
Inductive view :=
| FlashAndRedirect (message category : str) (endpoint_name : str)
| SendFromDirectory (directory path : str).

Definition invalid_image_path : view :=
  FlashAndRedirect (lit "Invalid image path") (lit "error") (lit "dashboard").

Definition access_denied : view :=
  FlashAndRedirect (lit "Access denied") (lit "error") (lit "dashboard").

(** Lines 218-231 and 238-251. *)
Definition serve_from (folder : str) (current_user_id : Z) (filename : str)
  : result view :=
  let parts := split_sep filename in
  (let? digits :=
     if (2 <=? length parts)%nat
     then (let? first := py_index parts 0 in Ok (isdigit first))
     else Ok false in
   if digits then
     (let? first := py_index parts 0 in
      let? user_id := py_int first in
      if negb (user_id =? current_user_id)%Z then Ok access_denied
      else
        (let? first := py_index parts 0 in
         let directory := os_path_join folder first in
         let filepath := join_sep (drop 1 parts) in
         Ok (SendFromDirectory directory filepath)))
   else Ok invalid_image_path)%result.

Definition serve_image : Z -> str -> result view :=
  serve_from (lit "static/generated_images").

Definition serve_upload : Z -> str -> result view :=
  serve_from (lit "uploads").

(** The first segment of a path, and what follows its first separator. *)
Fixpoint after_sep (s : str) : str :=
  match s with
  | [] => []
  | c :: s' => if c =? sep then s' else after_sep s'
  end.
End Serving.

(** Flask's [send_from_directory], which is not part of the repository:
    from the directory and the path, in the state of the file system, a
    response, or an error ([NotFound] when the path leaves the directory or
    names no file).  The development is parametric in it. *)
Class FlaskLib := {
  file_response : Type;
  send_from_directory : str -> str -> world -> result file_response
}.

(** What a view returns: a redirect after a flashed message, or the
    response [send_from_directory] made. *)
Inductive served `{FlaskLib} :=
| Redirected (message category : str) (endpoint_name : str)
| Sent (r : file_response).

(** The last call of a view is made: its response is returned, its error
    propagates. *)
Definition respond `{FlaskLib} (v : result view) (w : world) : result served :=
  match v with
  | Err e => Err e
  | Ok (FlashAndRedirect message category endpoint_name) =>
      Ok (Redirected message category endpoint_name)
  | Ok (SendFromDirectory directory path) =>
      match send_from_directory directory path w with
      | Ok r => Ok (Sent r)
      | Err e => Err e
      end
  end.

(** Lines 213-231 and 233-251, as a whole. *)
Definition serve_image_response `{DigitDB} `{FlaskLib}
    (current_user_id : Z) (filename : str) (w : world) : result served :=
  respond (serve_image current_user_id filename) w.

Definition serve_upload_response `{DigitDB} `{FlaskLib}
    (current_user_id : Z) (filename : str) (w : world) : result served :=
  respond (serve_upload current_user_id filename) w.

Definition NotFound : exn :=
  PyExc "NotFound"
    (lit "404 Not Found: The requested URL was not found on the server. If you entered the URL manually please check your spelling and try again.").

(** A [send_from_directory] for the examples: the file that the directory
    joined with the path names, when that is a regular file. *)
Definition flask_plain : FlaskLib :=
  {| file_response := bytes;
     send_from_directory := fun directory path w =>
       match stat (os_path_join directory path) w with
       | Ok (RegularFile data) => Ok data
       | _ => Err NotFound
       end |}.

(** The number a string of ASCII digits denotes. *)
Definition ascii_number (s : str) : N := foldl (fun v c => 10 * v + (c - 48)) 0 s.

Definition digits_ascii : DigitDB.
Proof.
  refine {| isdigit_char := ascii_isdigit_char;
            decimal_value := ascii_decimal_value;
            int_max_str_digits := 4300 |}.
  - reflexivity.
  - intros c Hc. unfold ascii_decimal_value. now rewrite Hc.
  - right. lia.
Defined.

(** ** The upload view (app.py, lines 145-211)

    The view is modelled over the parsed request: its method, the upload
    under the key ["file"] if there is one, and the text [datetime.now()]
    formats to.  [@login_required] lets an authenticated user through, whose
    [current_user.id] is [current_user_id].  The database is the list of
    the [GeneratedImage] rows, without the columns the database fills in
    ([id], [created_at]); a commit appends the row, a rollback leaves the
    list as it is. *)

(** [str(n)] for a number: its decimal digits. *)
Fixpoint decimal_go (fuel : nat) (n : N) (acc : str) : str :=
  match fuel with
  | O => acc
  | S fuel' =>
      let acc' := (48 + n mod 10) :: acc in
      if n <? 10 then acc' else decimal_go fuel' (n / 10) acc'
  end.

Definition str_of_N (n : N) : str := decimal_go (S (N.size_nat n)) n [].

(** [str(z)] for an [int]. *)
Definition str_of_Z (z : Z) : str :=
  match z with
  | Z0 => str_of_N 0
  | Zpos p => str_of_N (Npos p)
  | Zneg p => 45 :: str_of_N (Npos p)
  end.

(** [s.startswith(pre)] and [s.endswith(suffix)] *)
Fixpoint startswith (s pre : str) : bool :=
  match pre, s with
  | [], _ => true
  | p :: pre', c :: s' => (c =? p) && startswith s' pre'
  | _ :: _, [] => false
  end.

Definition endswith (s suffix : str) : bool := startswith (rev s) (rev suffix).






(** What the view returns, after the message it flashed, if any. *)
Inductive page :=
| RedirectRequestUrl                 (* redirect(request.url) *)
| RedirectUrlFor (endpoint_name : str)
| RedirectTo (url : str)
| RenderTemplate (template : str).

Record flask_reply := { flashed : option (str * str); body : page }.


Definition uploads_folder : str := lit "uploads".
Definition generated_images_folder : str := lit "static/generated_images".


Section UploadView.
Context `{UnicodeDB} `{WebLib}.




End UploadView.

(** The paths the view works with for the user [current_user_id]. *)
Definition upload_dir (current_user_id : Z) : str :=
  os_path_join uploads_folder (str_of_Z current_user_id).


Definition images_dir (current_user_id : Z) : str :=
  os_path_join generated_images_folder (str_of_Z current_user_id).





(** ** Accounts (app.py, lines 70-129)

    The two views are modelled over the parsed request: whether the client
    is authenticated, the method, the form and the query arguments.  The
    [User] table is the list of its rows in insertion order, without the
    columns the database fills in; [filter_by(username=...).first()] is
    the first row of that name, a commit appends the row.  [login] returns,
    next to its reply, the user [login_user] was called with, if it was. *)

(** werkzeug's password hashing: [generate_password_hash] draws a salt,
    and a hash checks against the password it was generated from. *)
Class PasswordLib := {
  generate_password_hash : str -> str -> str;
  check_password_hash : str -> str -> bool;
  check_generated : forall salt password,
    check_password_hash (generate_password_hash salt password) password = true
}.

Record user := { username : str; password_hash : str }.

(** [form.get(key, '')] *)
Definition form_get (form : gmap str str) (key : str) : str :=
  default [] (form !! key).

(** [User.query.filter_by(username=name).first()] *)
Definition first_by_username (name : str) (users : list user) : option user :=
  find (fun u => bool_decide (username u = name)) users.

Section Accounts.
Context `{UnicodeDB} `{PasswordLib}.

(** [s.strip()] *)
Fixpoint lstrip (s : str) : str :=
  match s with
  | [] => []
  | c :: s' => if isspace c then lstrip s' else s
  end.

Definition strip (s : str) : str := rev (lstrip (rev (lstrip s))).

Definition render_with_error (message template : str) : flask_reply :=
  {| flashed := Some (message, lit "error"); body := RenderTemplate template |}.

(** Lines 70-109. *)
Definition register (is_authenticated : bool) (method : str)
    (form : gmap str str) (salt : str) (users : list user)
  : flask_reply * list user :=
  if is_authenticated then
    ({| flashed := None; body := RedirectUrlFor (lit "dashboard") |}, users)
  else if decide (method = lit "POST") then
    let username := strip (form_get form (lit "username")) in
    let password := form_get form (lit "password") in
    let confirm_password := form_get form (lit "confirm_password") in
    if py_not username || py_not password then
      (render_with_error (lit "Username and password are required")
         (lit "register.html"), users)
    else if bool_decide (password <> confirm_password) then
      (render_with_error (lit "Passwords do not match") (lit "register.html"), users)
    else if (length password <? 6)%nat then
      (render_with_error (lit "Password must be at least 6 characters long")
         (lit "register.html"), users)
    else
      match first_by_username username users with
      | Some _ =>
          (render_with_error
             (lit "Username already exists. Please choose a different one.")
             (lit "register.html"), users)
      | None =>
          let user := {| username := username;
                         password_hash := generate_password_hash salt password |} in
          ({| flashed := Some (lit "Registration successful! Please login.",
                               lit "success");
              body := RedirectUrlFor (lit "login") |},
           users ++ [user])
      end
  else ({| flashed := None; body := RenderTemplate (lit "register.html") |}, users).

(** Lines 111-129. *)
Definition login (is_authenticated : bool) (method : str)
    (form args : gmap str str) (users : list user)
  : flask_reply * option user :=
  if is_authenticated then
    ({| flashed := None; body := RedirectUrlFor (lit "dashboard") |}, None)
  else if decide (method = lit "POST") then
    let username := strip (form_get form (lit "username")) in
    let password := form_get form (lit "password") in
    match first_by_username username users with
    | Some user =>
        if check_password_hash (password_hash user) password then
          let next_page := args !! lit "next" in
          ({| flashed := None;
              body := match next_page with
                      | Some (c :: url) => RedirectTo (c :: url)
                      | _ => RedirectUrlFor (lit "dashboard")
                      end |},
           Some user)
        else (render_with_error (lit "Invalid username or password")
                (lit "login.html"), None)
    | None => (render_with_error (lit "Invalid username or password")
                 (lit "login.html"), None)
    end
  else ({| flashed := None; body := RenderTemplate (lit "login.html") |}, None).
End Accounts.

(** A hashing for the examples: the salt, a [$], the password. *)
Definition password_plain : PasswordLib.
Proof.
  refine {| generate_password_hash := fun salt password => salt ++ 36 :: password;
            check_password_hash := fun pwhash password =>
              endswith pwhash (36 :: password) |}.
  intros salt password. unfold endswith. rewrite rev_app_distr.
  generalize (rev salt) as b.
  induction (rev (36 :: password)) as [|c s IH]; intros b;
    [now destruct b|].
  cbn. now rewrite N.eqb_refl, IH.
Defined.

(** A form with a user name, and the same text as password and
    confirmation. *)
Definition account_form (name password : str) : gmap str str :=
  {[ lit "username" := name; lit "password" := password;
     lit "confirm_password" := password ]}.

(** * Properties *)

Ltac sextets := zify; Z.to_euclidean_division_equations; lia.

(** ** The breed extractor *)

Section ExtractorFacts.
Context `{UnicodeDB}.

Lemma split_go_tokens_nonempty (s cur : str) :
  Forall (fun t => t <> []) (split_go cur s).
Proof.
  revert cur. induction s as [|c s IH]; intros cur; simpl.
  - destruct cur as [|x cur]; constructor; [|constructor].
    intros E. apply (f_equal (@length N)) in E.
    rewrite length_rev in E. discriminate.
  - destruct (isspace c); [|apply IH].
    destruct cur as [|x cur]; [apply IH|].
    constructor; [|apply IH].
    intros E. apply (f_equal (@length N)) in E.
    rewrite length_rev in E. discriminate.
Qed.

Lemma split_tokens_nonempty (s : str) : Forall (fun t => t <> []) (split s).
Proof. apply split_go_tokens_nonempty. Qed.

(** No character other than white space is lost by [split]: the tokens,
    concatenated, are the input without its white space. *)
Lemma split_go_concat (s cur : str) :
  concat (split_go cur s)
  = rev cur ++ List.filter (fun c => negb (isspace c)) s.
Proof.
  revert cur. induction s as [|c s IH]; intros cur; simpl.
  - destruct cur; simpl; now rewrite ?app_nil_r.
  - destruct (isspace c) eqn:E; simpl.
    + destruct cur as [|x cur]; simpl; rewrite IH; reflexivity.
    + rewrite IH. simpl. now rewrite <- app_assoc.
Qed.

Lemma extract_dog_breed_eq (s : str) :
  extract_dog_breed s = Ok (extract_reference s).
Proof.
  unfold extract_dog_breed, extract_reference.
  pose proof (split_tokens_nonempty s) as Hne.
  destruct (split s) as [|t0 [|t1 rest]]; simpl; try reflexivity.
  inversion Hne as [|? ? _ Hne']; subst.
  inversion Hne' as [|? ? Ht1 _]; subst.
  destruct t1 as [|c t1]; [contradiction|]; simpl.
  destruct (isupper c || _); reflexivity.
Qed.

Lemma extract_reference_nonempty (s : str) : extract_reference s <> [].
Proof.
  unfold extract_reference.
  pose proof (split_tokens_nonempty s) as Hne.
  destruct (split s) as [|t0 [|t1 rest]]; simpl.
  - discriminate.
  - inversion Hne; subst; assumption.
  - inversion Hne as [|? ? Ht0 _]; subst.
    destruct (_ || _); [|assumption].
    destruct t0; [contradiction|discriminate].
Qed.
End ExtractorFacts.

Section ExtractorTokens.
Context `{UnicodeDB}.

Lemma no_space_rev (t : str) : no_space t -> no_space (rev t).
Proof.
  unfold no_space. rewrite !Forall_forall. intros Ht c Hc.
  apply Ht. apply list_elem_of_In. apply in_rev. now apply list_elem_of_In.
Qed.

Lemma split_go_tokens_no_space (s cur : str) :
  no_space cur -> Forall no_space (split_go cur s).
Proof.
  revert cur. induction s as [|c s IH]; intros cur Hcur; cbn [split_go].
  - destruct cur; repeat constructor. now apply no_space_rev.
  - destruct (isspace c) eqn:Hc.
    + destruct cur as [|x cur]; [apply IH; constructor|].
      constructor; [now apply no_space_rev | apply IH; constructor].
    + apply IH. now constructor.
Qed.

(** A run without white space, read up to the end of the input, is one token. *)
Lemma split_go_run (t cur : str) :
  no_space t -> rev cur ++ t <> [] -> split_go cur t = [rev cur ++ t].
Proof.
  revert cur. induction t as [|c t IH]; intros cur Ht Hne; cbn [split_go].
  - rewrite app_nil_r in *. destruct cur; [contradiction | reflexivity].
  - apply Forall_cons in Ht as [Hc Ht]. rewrite Hc.
    rewrite IH.
    + cbn [rev]. now rewrite <- app_assoc.
    + assumption.
    + cbn [rev]. rewrite <- app_assoc. exact Hne.
Qed.

(** A run without white space followed by a white-space character is a token,
    and reading goes on after it. *)
Lemma split_go_run_then_space (t cur rest : str) (c : N) :
  no_space t -> isspace c = true -> rev cur ++ t <> [] ->
  split_go cur (t ++ c :: rest) = (rev cur ++ t) :: split_go [] rest.
Proof.
  revert cur. induction t as [|x t IH]; intros cur Ht Hc Hne; cbn [split_go app].
  - rewrite app_nil_r in *. rewrite Hc. destruct cur; [contradiction | reflexivity].
  - apply Forall_cons in Ht as [Hx Ht]. rewrite Hx.
    rewrite IH.
    + cbn [rev]. now rewrite <- app_assoc.
    + assumption.
    + assumption.
    + cbn [rev]. rewrite <- app_assoc. exact Hne.
Qed.

Lemma split_tokens_no_space (s : str) : Forall no_space (split s).
Proof. apply split_go_tokens_no_space. constructor. Qed.

Lemma split_one_token (t : str) : no_space t -> t <> [] -> split t = [t].
Proof. intros Ht Hne. unfold split. now rewrite split_go_run. Qed.

Lemma split_two_tokens (t0 t1 : str) :
  isspace 32 = true -> no_space t0 -> t0 <> [] -> no_space t1 -> t1 <> [] ->
  split (t0 ++ lit " " ++ t1) = [t0; t1].
Proof.
  intros Hsp H0 N0 H1 N1. unfold split. change (lit " " ++ t1) with (32 :: t1).
  rewrite split_go_run_then_space by assumption.
  now rewrite split_go_run.
Qed.

Lemma extract_reference_idemp (s : str) :
  space_table_as_ascii ->
  extract_reference (extract_reference s) = extract_reference s.
Proof.
  intros [Hsp Hdog]. unfold extract_reference at 2 3.
  pose proof (split_tokens_nonempty s) as Hne.
  pose proof (split_tokens_no_space s) as Hns.
  destruct (split s) as [|t0 [|t1 rest]].
  - unfold extract_reference. now rewrite split_one_token.
  - apply Forall_cons in Hne as [N0 _]. apply Forall_cons in Hns as [S0 _].
    unfold extract_reference. now rewrite split_one_token.
  - apply Forall_cons in Hne as [N0 Hne]. apply Forall_cons in Hne as [N1 _].
    apply Forall_cons in Hns as [S0 Hns]. apply Forall_cons in Hns as [S1 _].
    destruct (starts_upper t1 || _).
    + unfold extract_reference. rewrite split_two_tokens by assumption.
      cbn [length Nat.eqb]. now rewrite orb_true_r.
    + unfold extract_reference. now rewrite split_one_token.
Qed.
End ExtractorTokens.

Section TokensOfTheSpecification.
Context `{UnicodeDB}.

Lemma split_go_space (ws s : str) :
  all_space ws -> split_go [] (ws ++ s) = split_go [] s.
Proof.
  induction 1 as [|c ws Hc _ IH]; [reflexivity|].
  cbn [app split_go]. now rewrite Hc.
Qed.

(** The tokens of the specification are the ones [split] computes. *)
Lemma tokens_of_split (s : str) (tokens : list str) :
  tokens_of s tokens -> split s = tokens.
Proof.
  unfold split. induction 1 as [ws Hws | ws t Hws Hne Ht | ws t c rest ts Hws Hne Ht Hc _ IH].
  - rewrite <- (app_nil_r ws). now rewrite split_go_space.
  - rewrite split_go_space by assumption. now rewrite split_go_run.
  - rewrite split_go_space by assumption.
    rewrite split_go_run_then_space by assumption. now rewrite IH.
Qed.

(** A string is a run of characters that satisfy [P], then nothing or a
    character that does not. *)
Lemma leading_run (P : N -> bool) (s : str) :
  exists a b, s = a ++ b /\ Forall (fun c => P c = true) a
              /\ (b = [] \/ exists c b', b = c :: b' /\ P c = false).
Proof.
  induction s as [|c s (a & b & -> & Ha & Hb)].
  - exists [], []. repeat split; [constructor | now left].
  - destruct (P c) eqn:Hc.
    + exists (c :: a), b. repeat split; [now constructor | exact Hb].
    + exists [], (c :: a ++ b). repeat split; [constructor | right; eauto].
Qed.

(** Every text has tokens. *)
Lemma tokens_of_exists (s : str) : exists tokens, tokens_of s tokens.
Proof.
  remember (length s) as n eqn:Hn. revert s Hn.
  induction n as [n IH] using lt_wf_ind. intros s ->.
  destruct (leading_run isspace s) as (ws & b & -> & Hws & Hb).
  destruct Hb as [-> | (c & b' & -> & Hc)].
  { exists []. rewrite app_nil_r. now constructor. }
  destruct (leading_run (fun x => negb (isspace x)) (c :: b'))
    as (t & r & E & Ht & Hr).
  assert (Hns : no_space t).
  { eapply Forall_impl; [exact Ht|]. intros x Hx. now apply negb_true_iff in Hx. }
  assert (Hne : t <> []).
  { intros ->. cbn in E. subst r. destruct Hr as [|(x & r' & [= <- <-] & Hx)];
      [discriminate|]. rewrite Hc in Hx. discriminate. }
  rewrite E in *. clear E. destruct Hr as [-> | (d & r' & -> & Hd)].
  - exists [t]. rewrite app_nil_r. now constructor.
  - apply negb_false_iff in Hd.
    destruct (IH (length r')) with (s := r') as (ts & Hts); [|reflexivity|].
    + rewrite !length_app. cbn [length]. lia.
    + exists (t :: ts). now constructor.
Qed.

Lemma extract_reference_label (s : str) :
  extract_reference s = label_of_tokens (split s).
Proof.
  unfold extract_reference, label_of_tokens.
  destruct (split s) as [|t0 [|t1 [|t2 rest]]]; reflexivity.
Qed.
End TokensOfTheSpecification.

(** C6: for every description, [extract_dog_breed] returns what the
    specification's algorithm returns.  The description has tokens in the
    specification's sense (white-space separated runs, punctuation
    included), and whatever way it is cut into such tokens, the result is
    the label of these tokens: with two or more tokens of which the second
    starts upper case, or with exactly two tokens, the first two joined by
    one space; otherwise the first token; ["dog"] when there is none. *)
Theorem extract_dog_breed_refines_reference `{UnicodeDB} (s : str) :
  (exists tokens, tokens_of s tokens)
  /\ forall tokens,
       tokens_of s tokens ->
       extract_dog_breed s = Ok (label_of_tokens tokens).
Proof.
  split; [apply tokens_of_exists|].
  intros tokens Htokens. apply tokens_of_split in Htokens as <-.
  rewrite extract_dog_breed_eq. f_equal. apply extract_reference_label.
Qed.

Lemma extract_dog_breed_refines_reference_witness :
  @tokens_of ucd_basic (lit "Golden Retriever,  warm eyes. ")
    [lit "Golden"; lit "Retriever,"; lit "warm"; lit "eyes."]
  /\ @extract_dog_breed ucd_basic (lit "Golden Retriever,  warm eyes. ")
     = Ok (lit "Golden Retriever,").
Proof.
  assert (Htokens : @tokens_of ucd_basic (lit "Golden Retriever,  warm eyes. ")
            [lit "Golden"; lit "Retriever,"; lit "warm"; lit "eyes."]).
  { apply (@tokens_more ucd_basic [] (lit "Golden") 32 (lit "Retriever,  warm eyes. "));
      [constructor | discriminate | repeat constructor | reflexivity |].
    apply (@tokens_more ucd_basic [] (lit "Retriever,") 32 (lit " warm eyes. "));
      [constructor | discriminate | repeat constructor | reflexivity |].
    apply (@tokens_more ucd_basic (lit " ") (lit "warm") 32 (lit "eyes. "));
      [repeat constructor | discriminate | repeat constructor | reflexivity |].
    apply (@tokens_more ucd_basic [] (lit "eyes.") 32 []);
      [constructor | discriminate | repeat constructor | reflexivity |].
    apply (@tokens_none ucd_basic []). constructor. }
  split; [exact Htokens|].
  exact (proj2 (@extract_dog_breed_refines_reference ucd_basic _) _ Htokens).
Defined.

(** C8: for every description, no token of the split is empty (so the look
    at the second token's first character is in bounds), and
    [extract_dog_breed] returns normally with a non-empty label. *)
Theorem extract_dog_breed_total_nonempty `{UnicodeDB} (s : str) :
  Forall (fun t => t <> []) (split s)
  /\ exists label, extract_dog_breed s = Ok label /\ label <> [].
Proof.
  split; [apply split_tokens_nonempty|].
  exists (extract_reference s).
  split; [apply extract_dog_breed_eq | apply extract_reference_nonempty].
Qed.

Example extract_golden_retriever :
  @extract_dog_breed ucd_basic (lit "Golden Retriever, warm eyes.")
  = Ok (lit "Golden Retriever,").
Proof. reflexivity. Qed.

Example extract_single_token :
  @extract_dog_breed ucd_basic (lit "  Pug. ") = Ok (lit "Pug.").
Proof. reflexivity. Qed.

Example extract_two_lowercase_tokens :
  @extract_dog_breed ucd_basic (lit "a pug") = Ok (lit "a pug").
Proof. reflexivity. Qed.

Example extract_empty :
  @extract_dog_breed ucd_basic (lit "") = Ok (lit "dog").
Proof. reflexivity. Qed.

(** C7, as stated, fails: on ["Beagle with floppy ears"] the second token
    starts lower case and there are four tokens, so the label is the first
    token alone, not ["Beagle with"]. *)
Lemma extract_beagle_is_not_beagle_with :
  @extract_dog_breed ucd_basic (lit "Beagle with floppy ears") = Ok (lit "Beagle")
  /\ @extract_dog_breed ucd_basic (lit "Beagle with floppy ears")
     <> Ok (lit "Beagle with").
Proof. split; [reflexivity | discriminate]. Qed.

(** C7, amended: [extract_dog_breed] applied to ["Beagle with floppy ears"]
    returns the label ["Beagle"]. *)
Theorem extract_beagle_with_floppy_ears :
  @extract_dog_breed ucd_basic (lit "Beagle with floppy ears") = Ok (lit "Beagle").
Proof. reflexivity. Qed.

(** X12: the extractor is idempotent: applied to a label it returned, it
    returns that label again (given that the space is white space and the
    letters of ["dog"] are not, as in CPython's table). *)
Theorem extract_dog_breed_idempotent `{UnicodeDB} (s label : str) :
  space_table_as_ascii ->
  extract_dog_breed s = Ok label ->
  extract_dog_breed label = Ok label.
Proof.
  intros Htable. rewrite !extract_dog_breed_eq. intros [= <-].
  now rewrite extract_reference_idemp.
Qed.

Lemma extract_dog_breed_idempotent_witness :
  @space_table_as_ascii ucd_basic
  /\ @extract_dog_breed ucd_basic (lit "Golden Retriever, warm eyes.")
     = Ok (lit "Golden Retriever,")
  /\ @extract_dog_breed ucd_basic (lit "Golden Retriever,")
     = Ok (lit "Golden Retriever,").
Proof.
  assert (Ht : @space_table_as_ascii ucd_basic) by (split; repeat constructor).
  split; [exact Ht|]. split; [reflexivity|].
  apply (@extract_dog_breed_idempotent ucd_basic
           (lit "Golden Retriever, warm eyes.") _ Ht).
  reflexivity.
Defined.

(** ** Base64: decoding what was encoded gives the bytes back *)

Lemma forall_below_64 (P : N -> bool) :
  forallb P (List.map N.of_nat (seq 0 64)) = true ->
  forall i, i < 64 -> P i = true.
Proof.
  intros HP i Hi. rewrite forallb_forall in HP. apply HP.
  rewrite <- (N2Nat.id i). apply in_map. apply in_seq. lia.
Qed.

Lemma b64_char_digit (i : N) : i < 64 -> b64_digit (b64_char i) i.
Proof.
  intros Hi. pose proof (forall_below_64 b64_char_ok eq_refl i Hi) as Hok.
  unfold b64_char_ok in Hok.
  destruct (b64_index (b64_char i)) as [j|] eqn:Hj; [|discriminate].
  apply andb_prop in Hok as [Hok H3]. apply andb_prop in Hok as [H1 H2].
  apply N.eqb_eq in H1. subst j.
  constructor; [assumption | now apply negb_true_iff | assumption].
Qed.

Lemma a2b_go_quad (c0 c1 c2 c3 v0 v1 v2 v3 : N) (s : str) (l p : N) (out : bytes) :
  b64_digit c0 v0 -> b64_digit c1 v1 -> b64_digit c2 v2 -> b64_digit c3 v3 ->
  a2b_go (c0 :: c1 :: c2 :: c3 :: s) 0 l p out
  = a2b_go s 0 0 0
      (((v2 mod 4) * 64 + v3) :: ((v1 mod 16) * 16 + v2 / 4)
       :: (v0 * 4 + v1 / 16) :: out).
Proof.
  intros [I0 P0 _] [I1 P1 _] [I2 P2 _] [I3 P3 _].
  cbn [a2b_go]. rewrite P0, I0. cbn [N.eqb].
  rewrite P1, I1. cbn [N.eqb Pos.eqb].
  rewrite P2, I2. cbn [N.eqb Pos.eqb].
  rewrite P3, I3. reflexivity.
Qed.

Lemma a2b_go_two_pads (c0 c1 v0 v1 : N) (l p : N) (out : bytes) :
  b64_digit c0 v0 -> b64_digit c1 v1 ->
  a2b_go [c0; c1; b64_pad; b64_pad] 0 l p out
  = Ok (rev ((v0 * 4 + v1 / 16) :: out)).
Proof.
  intros [I0 P0 _] [I1 P1 _].
  cbn [a2b_go]. rewrite P0, I0. cbn [N.eqb].
  rewrite P1, I1. reflexivity.
Qed.

Lemma a2b_go_one_pad (c0 c1 c2 v0 v1 v2 : N) (l p : N) (out : bytes) :
  b64_digit c0 v0 -> b64_digit c1 v1 -> b64_digit c2 v2 ->
  a2b_go [c0; c1; c2; b64_pad] 0 l p out
  = Ok (rev (((v1 mod 16) * 16 + v2 / 4) :: (v0 * 4 + v1 / 16) :: out)).
Proof.
  intros [I0 P0 _] [I1 P1 _] [I2 P2 _].
  cbn [a2b_go]. rewrite P0, I0. cbn [N.eqb].
  rewrite P1, I1. cbn [N.eqb Pos.eqb].
  rewrite P2, I2. reflexivity.
Qed.

Lemma list_ind3 {A} (P : list A -> Prop) :
  P [] -> (forall a, P [a]) -> (forall a b, P [a; b]) ->
  (forall a b c l, P l -> P (a :: b :: c :: l)) ->
  forall l, P l.
Proof.
  intros H0 H1 H2 H3.
  fix IH 1. intros [|a [|b [|c l]]];
    [apply H0 | apply H1 | apply H2 | apply H3, IH].
Qed.

Lemma a2b_go_b64encode (s : bytes) :
  is_bytes s ->
  forall out, a2b_go (b64encode s) 0 0 0 out = Ok (rev out ++ s).
Proof.
  unfold is_bytes.
  induction s as [|a|a b|a b c s IH] using list_ind3; intros Hs out.
  - simpl. now rewrite app_nil_r.
  - inversion Hs as [|? ? Ha _]; subst.
    cbn [b64encode].
    erewrite a2b_go_two_pads by (apply b64_char_digit; sextets).
    simpl. repeat f_equal. sextets.
  - inversion Hs as [|? ? Ha Hs']; subst. inversion Hs' as [|? ? Hb _]; subst.
    cbn [b64encode].
    erewrite a2b_go_one_pad by (apply b64_char_digit; sextets).
    simpl. rewrite <- app_assoc. simpl. repeat f_equal; sextets.
  - inversion Hs as [|? ? Ha Hs']; subst. inversion Hs' as [|? ? Hb Hs'']; subst.
    inversion Hs'' as [|? ? Hc Hrest]; subst.
    cbn [b64encode].
    erewrite a2b_go_quad by (apply b64_char_digit; sextets).
    rewrite IH by assumption. simpl. rewrite <- !app_assoc. simpl.
    repeat f_equal; sextets.
Qed.

Lemma b64encode_ascii (s : bytes) :
  is_bytes s -> forallb (fun c => c <? 128) (b64encode s) = true.
Proof.
  unfold is_bytes.
  induction s as [|a|a b|a b c s IH] using list_ind3; intros Hs.
  - reflexivity.
  - inversion Hs; subst. cbn [b64encode forallb].
    rewrite !(fun i H => digit_ascii _ _ (b64_char_digit i H)) by sextets.
    reflexivity.
  - inversion Hs as [|? ? Ha Hs']; subst. inversion Hs'; subst.
    cbn [b64encode forallb].
    rewrite !(fun i H => digit_ascii _ _ (b64_char_digit i H)) by sextets.
    reflexivity.
  - inversion Hs as [|? ? Ha Hs']; subst. inversion Hs' as [|? ? Hb Hs'']; subst.
    inversion Hs''; subst.
    cbn [b64encode forallb].
    rewrite !(fun i H => digit_ascii _ _ (b64_char_digit i H)) by sextets.
    rewrite IH by assumption. reflexivity.
Qed.

Lemma b64decode_b64encode (s : bytes) :
  is_bytes s -> b64decode (PyStr (b64encode s)) = Ok s.
Proof.
  intros Hs. unfold b64decode, a2b_base64.
  rewrite b64encode_ascii by assumption.
  now rewrite a2b_go_b64encode.
Qed.

(** ** Paths and the file system *)

(** *** Segments and names *)

Lemma split_on_sep_run (t cur : str) :
  no_sep t = true -> split_on_sep cur t = [rev cur ++ t].
Proof.
  revert cur. induction t as [|c t IH]; intros cur Ht; cbn [split_on_sep].
  - now rewrite app_nil_r.
  - cbn in Ht. apply andb_prop in Ht as [Hc Ht]. apply negb_true_iff in Hc.
    rewrite Hc, IH by assumption. cbn [rev]. now rewrite <- app_assoc.
Qed.

Lemma split_on_sep_run_then_sep (t cur rest : str) :
  no_sep t = true ->
  split_on_sep cur (t ++ sep :: rest) = (rev cur ++ t) :: split_on_sep [] rest.
Proof.
  revert cur. induction t as [|c t IH]; intros cur Ht; cbn [split_on_sep app].
  - rewrite N.eqb_refl. now rewrite app_nil_r.
  - cbn in Ht. apply andb_prop in Ht as [Hc Ht]. apply negb_true_iff in Hc.
    rewrite Hc, IH by assumption. cbn [rev]. now rewrite <- app_assoc.
Qed.

Lemma split_on_sep_nonempty (s cur : str) : split_on_sep cur s <> [].
Proof.
  revert cur. induction s as [|c s IH]; intros cur; cbn [split_on_sep].
  - discriminate.
  - destruct (c =? sep); [discriminate | apply IH].
Qed.

(** The segments of two strings joined by a slash are the segments of the
    one, then those of the other. *)
Lemma split_on_sep_app (a b cur : str) :
  split_on_sep cur (a ++ sep :: b) = split_on_sep cur a ++ split_on_sep [] b.
Proof.
  revert cur. induction a as [|c a IH]; intros cur; cbn [split_on_sep app].
  - now rewrite N.eqb_refl.
  - destruct (c =? sep); [|apply IH]. cbn [app]. now rewrite IH.
Qed.

Lemma path_names_app_sep (a b : str) :
  path_names (a ++ sep :: b) = path_names a ++ path_names b.
Proof. unfold path_names, split_sep. now rewrite split_on_sep_app, List.filter_app. Qed.

Lemma path_names_nil : path_names [] = [].
Proof. reflexivity. Qed.

Lemma path_names_one (n : str) : n <> [] -> no_sep n = true -> path_names n = [n].
Proof.
  intros Hne Hn. unfold path_names, split_sep. rewrite split_on_sep_run by assumption.
  cbn. destruct n; [contradiction | reflexivity].
Qed.

Lemma path_names_sep_end (a : str) : path_names (a ++ [sep]) = path_names a.
Proof. now rewrite path_names_app_sep, path_names_nil, app_nil_r. Qed.

Lemma path_names_seps (k : nat) (s : str) :
  path_names (repeat sep k ++ s) = path_names s.
Proof.
  induction k as [|k IH]; [reflexivity|]. cbn [repeat app].
  change (sep :: repeat sep k ++ s) with ([] ++ sep :: (repeat sep k ++ s)).
  now rewrite path_names_app_sep, path_names_nil.
Qed.

(** What a plain name is. *)
Lemma plain_name_spec (n : str) :
  plain_name n = true ->
  n <> [] /\ no_sep n = true /\ has_null n = false /\ n <> dot /\ n <> dotdot.
Proof.
  unfold plain_name. intros Hn.
  apply andb_prop in Hn as [Hn Hdd]. apply andb_prop in Hn as [Hn Hd].
  apply andb_prop in Hn as [Hn Hz]. apply andb_prop in Hn as [Hne Hs].
  apply negb_true_iff in Hz, Hd, Hdd.
  apply bool_decide_eq_false in Hd, Hdd.
  repeat split; try assumption. now destruct n.
Qed.

Lemma has_null_app (a b : str) : has_null (a ++ b) = has_null a || has_null b.
Proof. apply existsb_app. Qed.

Lemma no_sep_app (a b : str) : no_sep (a ++ b) = no_sep a && no_sep b.
Proof. apply forallb_app. Qed.

Lemma endswith_sep_snoc (a : str) (c : N) : endswith_sep (a ++ [c]) = (c =? sep).
Proof. unfold endswith_sep. now rewrite last_snoc. Qed.

Lemma endswith_sep_app (a b : str) : b <> [] -> endswith_sep (a ++ b) = endswith_sep b.
Proof.
  intros Hb. destruct (exists_last Hb) as (b' & c & ->).
  now rewrite app_assoc, !endswith_sep_snoc.
Qed.

Lemma endswith_sep_no_sep (n : str) : no_sep n = true -> endswith_sep n = false.
Proof.
  intros Hn. destruct n as [|c n] using rev_ind; [reflexivity|].
  rewrite endswith_sep_snoc. rewrite no_sep_app in Hn.
  apply andb_prop in Hn as [_ Hc]. cbn in Hc. rewrite andb_true_r in Hc.
  now apply negb_true_iff in Hc.
Qed.

Lemma startswith_sep_no_sep (n : str) : no_sep n = true -> startswith_sep n = false.
Proof.
  destruct n as [|c n]; [reflexivity|]. cbn.
  intros Hs. apply andb_prop in Hs as [Hc _]. now apply negb_true_iff in Hc.
Qed.

Lemma startswith_sep_app (a b : str) :
  a <> [] -> startswith_sep (a ++ b) = startswith_sep a.
Proof. destruct a; [contradiction | reflexivity]. Qed.












(** [posixpath.split] in general: the names of a path are the names of its
    head, then its tail if it has one. *)
Lemma cut_last_sep_spec (p : str) :
  p = fst (cut_last_sep p) ++ snd (cut_last_sep p)
  /\ no_sep (snd (cut_last_sep p)) = true
  /\ (fst (cut_last_sep p) = [] \/ endswith_sep (fst (cut_last_sep p)) = true).
Proof.
  induction p as [|c p (Hp & Ht & Hh)]; [repeat split; now left|].
  cbn [cut_last_sep]. destruct (cut_last_sep p) as [h t]. cbn [fst snd] in *.
  destruct h as [|d h].
  - destruct (N.eqb_spec c sep) as [->|Hc]; cbn [fst snd app].
    + repeat split; [now rewrite Hp | exact Ht | now right].
    + repeat split; [now rewrite Hp | | now left].
      unfold no_sep in *. cbn [forallb]. rewrite Ht, andb_true_r.
      apply negb_true_iff. now apply N.eqb_neq.
  - cbn [fst snd]. repeat split; [now rewrite Hp | exact Ht |].
    right. destruct Hh as [Hh|Hh]; [discriminate|].
    change (c :: d :: h) with ([c] ++ d :: h).
    now rewrite endswith_sep_app by discriminate.
Qed.

Lemma rstrip_sep_spec (h : str) : exists k, h = rstrip_sep h ++ repeat sep k.
Proof.
  induction h as [|c h [k IH]]; [now exists 0%nat|]. cbn [rstrip_sep].
  destruct (rstrip_sep h) as [|d r] eqn:E.
  - destruct (N.eqb_spec c sep) as [->|Hc].
    + exists (S k). cbn in IH |- *. now rewrite IH.
    + exists k. cbn in IH |- *. now rewrite IH.
  - exists k. cbn [app] in IH |- *. now rewrite IH at 1.
Qed.

Lemma path_names_repeat_end (a : str) (k : nat) :
  path_names (a ++ repeat sep k) = path_names a.
Proof.
  induction k as [|k IH]; [now rewrite app_nil_r|].
  cbn [repeat]. rewrite repeat_cons, app_assoc. now rewrite path_names_sep_end.
Qed.

Lemma endswith_sep_inv (a : str) :
  endswith_sep a = true -> exists a', a = a' ++ [sep].
Proof.
  unfold endswith_sep. destruct (last a) as [c|] eqn:Hl; [|discriminate].
  intros Hc. apply N.eqb_eq in Hc. subst c.
  apply last_Some in Hl. exact Hl.
Qed.

Lemma posix_split_spec (p head tail : str) :
  posix_split p = (head, tail) ->
  no_sep tail = true
  /\ path_names p = path_names head ++ path_names tail
  /\ (exists rest, p = head ++ rest ++ tail).
Proof.
  unfold posix_split. pose proof (cut_last_sep_spec p) as (Hp & Ht & Hh).
  destruct (cut_last_sep p) as [h t]. cbn [fst snd] in *.
  intros [= <- <-]. split; [exact Ht|].
  destruct (rstrip_sep_spec h) as [k Hk].
  assert (Hnames : path_names p = path_names h ++ path_names t).
  { rewrite Hp at 1. destruct Hh as [->|Hh]; [reflexivity|].
    apply endswith_sep_inv in Hh as [h' ->].
    rewrite <- app_assoc. cbn [app].
    now rewrite path_names_app_sep, path_names_sep_end. }
  destruct (negb (py_not h) && negb (all_sep h)).
  - split.
    + rewrite Hnames. f_equal. rewrite Hk at 1. apply path_names_repeat_end.
    + exists (repeat sep k). rewrite app_assoc, <- Hk. exact Hp.
  - split; [exact Hnames|]. exists []. exact Hp.
Qed.

Lemma makedirs_split_spec (name head tail : str) :
  makedirs_split name = (head, tail) ->
  no_sep tail = true
  /\ path_names name = path_names head ++ path_names tail
  /\ (exists rest, name = head ++ rest).
Proof.
  unfold makedirs_split.
  destruct (posix_split name) as [h1 t1] eqn:E1.
  apply posix_split_spec in E1 as (Ht1 & Hn1 & rest1 & Hp1).
  destruct t1 as [|c t1]; cbn [py_not].
  - intros E2. apply posix_split_spec in E2 as (Ht2 & Hn2 & rest2 & Hp2).
    split; [exact Ht2|]. split.
    + now rewrite Hn1, path_names_nil, app_nil_r.
    + exists ((rest2 ++ tail) ++ rest1). rewrite Hp1, Hp2.
      now rewrite app_nil_r, <- !app_assoc.
  - intros [= <- <-]. split; [exact Ht1|]. split; [exact Hn1|].
    exists (rest1 ++ c :: t1). exact Hp1.
Qed.

Lemma makedirs_go_unfold (fuel : nat) (name : str) (w : world) :
  makedirs_go fuel name w
  = let (head, tail) := makedirs_split name in
    if negb (py_not head) && negb (py_not tail) && negb (path_exists head w) then
      match fuel with
      | O => mkdir_exist_ok name w
      | S fuel' =>
          match except_file_exists (makedirs_go fuel' head) w with
          | (Ok _, w1) =>
              if decide (tail = dot) then (Ok tt, w1) else mkdir_exist_ok name w1
          | (Err e, w1) => (Err e, w1)
          end
      end
    else mkdir_exist_ok name w.
Proof.
  destruct fuel; cbn [makedirs_go]; destruct (makedirs_split name) as [head tail];
    try reflexivity.
  destruct (_ && _); [|reflexivity]. unfold bind.
  destruct (except_file_exists _ w) as [[[]|e] w1]; [|reflexivity].
  destruct (decide (tail = dot)); reflexivity.
Qed.

(** *** Walking *)

Lemma walk_app (w : world) (cur : loc) (a b : list str) :
  walk w cur (a ++ b)
  = match walk w cur a with
    | At l => walk w l b
    | Fails e => Fails e
    end.
Proof.
  revert cur. induction a as [|n a IH]; intros cur; [reflexivity|].
  cbn [app walk]. destruct (is_dir w cur); [apply IH | reflexivity].
Qed.

Lemma is_dir_set_files (w : world) (fs : gmap loc bytes) (l : loc) :
  is_dir (set_files w fs) l = is_dir w l.
Proof. reflexivity. Qed.

Lemma is_dir_log_call (w : world) (req : request) (l : loc) :
  is_dir (log_call w req) l = is_dir w l.
Proof. reflexivity. Qed.

Lemma is_dir_true (w : world) (l : loc) : is_dir w l = true <-> l = [] \/ l ∈ dirs w.
Proof. unfold is_dir. apply bool_decide_eq_true. Qed.


(** Where a walk arrives only depends on the directories. *)
Lemma walk_At_dirs (w w' : world) (cur l : loc) (names : list str) :
  (forall d, is_dir w d = true -> is_dir w' d = true) ->
  walk w cur names = At l -> walk w' cur names = At l.
Proof.
  intros Hsub. revert cur. induction names as [|n names IH]; intros cur; [trivial|].
  cbn [walk]. destruct (is_dir w cur) eqn:Hd; [|discriminate].
  rewrite (Hsub _ Hd). apply IH.
Qed.

Lemma step_plain (cur : loc) (n : str) : plain_name n = true -> step cur n = cur ++ [n].
Proof.
  intros Hn. apply plain_name_spec in Hn as (_ & _ & _ & Hd & Hdd).
  unfold step. destruct (decide (n = dot)); [contradiction|].
  destruct (decide (n = dotdot)); [contradiction | reflexivity].
Qed.


Lemma walk_snoc (w : world) (cur : loc) (names : list str) (n : str) :
  walk w cur (names ++ [n])
  = match walk w cur names with
    | At l =>
        if is_dir w l then At (step l n)
        else Fails (match files w !! l with Some _ => ENOTDIR | None => ENOENT end)
    | Fails e => Fails e
    end.
Proof. rewrite walk_app. destruct (walk w cur names); reflexivity. Qed.



(** *** What the operations look at *)

Lemma walk_same (w w' : world) (cur : loc) (names : list str) :
  files w' = files w -> dirs w' = dirs w ->
  walk w' cur names = walk w cur names.
Proof.
  intros Hf Hd. revert cur. induction names as [|n names IH]; intros cur; [reflexivity|].
  cbn [walk]. unfold is_dir. rewrite Hf, Hd.
  destruct (bool_decide _); [apply IH | reflexivity].
Qed.

Lemma locate_same (w w' : world) (path : str) :
  files w' = files w -> dirs w' = dirs w -> cwd w' = cwd w ->
  locate w' path = locate w path.
Proof.
  intros Hf Hd Hc. unfold locate. rewrite Hc.
  destruct (py_not path); [reflexivity | now apply walk_same].
Qed.

Lemma stat_same (w w' : world) (path : str) :
  files w' = files w -> dirs w' = dirs w -> cwd w' = cwd w ->
  stat path w' = stat path w.
Proof.
  intros Hf Hd Hc. unfold stat. rewrite (locate_same w w') by assumption.
  unfold is_dir. now rewrite Hf, Hd.
Qed.

Lemma read_file_world (path : str) (w : world) : snd (read_file path w) = w.
Proof. unfold read_file. destruct (stat path w) as [[data|]|e]; reflexivity. Qed.

Lemma read_file_same (w w' : world) (path : str) :
  files w' = files w -> dirs w' = dirs w -> cwd w' = cwd w ->
  fst (read_file path w') = fst (read_file path w).
Proof.
  intros Hf Hd Hc. unfold read_file. rewrite (stat_same w w') by assumption.
  destruct (stat path w) as [[data|]|e]; reflexivity.
Qed.

Lemma read_file_log_call (path : str) (w : world) (req : request) :
  fst (read_file path (log_call w req)) = fst (read_file path w).
Proof. now apply read_file_same. Qed.

(** A location reached stays reached when directories are added. *)
Lemma locate_At_dirs (w w' : world) (path : str) (l : loc) :
  (forall d, d ∈ dirs w -> d ∈ dirs w') -> cwd w' = cwd w ->
  locate w path = At l -> locate w' path = At l.
Proof.
  intros Hsub Hc. unfold locate. rewrite Hc.
  destruct (py_not path); [discriminate|]. apply walk_At_dirs.
  intros d Hd. apply is_dir_true in Hd. apply is_dir_true.
  destruct Hd as [->|Hd]; [now left | right; now apply Hsub].
Qed.

(** *** Opening a file for writing *)

Lemma slot_Ok (path : str) (w : world) (l : loc) :
  slot path w = Ok l
  <-> has_null path = false /\ locate w path = At l
      /\ endswith_sep path = false /\ names_a_directory path = false
      /\ is_dir w l = false.
Proof.
  unfold slot. destruct (has_null path); [split; [discriminate | intros [? _]; discriminate]|].
  destruct (locate w path) as [l'|e];
    [|split; [discriminate | intros (_ & ? & _); discriminate]].
  destruct (endswith_sep path); cbn [orb];
    [split; [discriminate | intros (_ & _ & ? & _); discriminate]|].
  destruct (names_a_directory path); cbn [orb];
    [split; [discriminate | intros (_ & _ & _ & ? & _); discriminate]|].
  destruct (is_dir w l') eqn:Hd.
  - split; [discriminate | intros (_ & [= ->] & _ & _ & ?); congruence].
  - split; [intros [= ->]; now repeat split | intros (_ & [= ->] & _); reflexivity].
Qed.

(** Where a file is opened does not depend on the files there are. *)
Lemma slot_same_dirs (w w' : world) (path : str) (l : loc) :
  dirs w' = dirs w -> cwd w' = cwd w ->
  slot path w = Ok l -> slot path w' = Ok l.
Proof.
  intros Hd Hc. rewrite !slot_Ok. intros (Hz & Hl & He & Hn & Hi).
  repeat split; try assumption.
  - apply (locate_At_dirs w w'); [now rewrite Hd | assumption..].
  - unfold is_dir in *. now rewrite Hd.
Qed.

Lemma slot_set_files (w : world) (fs : gmap loc bytes) (path : str) (l : loc) :
  slot path (set_files w fs) = Ok l <-> slot path w = Ok l.
Proof. split; now apply slot_same_dirs. Qed.

(** What was written where a path is opened is what reading the path
    gives. *)
Lemma read_slot (path : str) (w : world) (l : loc) (data : bytes) :
  slot path w = Ok l -> files w !! l = Some data ->
  fst (read_file path w) = Ok data.
Proof.
  rewrite slot_Ok. intros (Hz & Hl & He & _ & Hi) Hf.
  unfold read_file, stat. now rewrite Hz, Hl, Hi, Hf, He.
Qed.


(** *** Paths under a directory *)

Lemma os_path_join_plain (a n : str) :
  a <> [] -> plain_name n = true ->
  os_path_join a n <> []
  /\ startswith_sep (os_path_join a n) = startswith_sep a
  /\ endswith_sep (os_path_join a n) = false
  /\ has_null (os_path_join a n) = has_null a
  /\ path_names (os_path_join a n) = path_names a ++ [n].
Proof.
  intros Ha Hn. apply plain_name_spec in Hn as (Hne & Hs & Hz & _).
  unfold os_path_join. rewrite startswith_sep_no_sep by assumption.
  assert (Hpy : py_not a = false) by (destruct a; [contradiction | reflexivity]).
  rewrite Hpy. cbn [orb].
  destruct (endswith_sep a) eqn:He.
  - apply endswith_sep_inv in He as [a' ->].
    rewrite <- app_assoc. cbn [app]. repeat split.
    + destruct a'; discriminate.
    + destruct a'; reflexivity.
    + change (a' ++ sep :: n) with (a' ++ [sep] ++ n).
      rewrite app_assoc, endswith_sep_app by assumption.
      now apply endswith_sep_no_sep.
    + change (a' ++ sep :: n) with (a' ++ [sep] ++ n).
      rewrite !has_null_app, Hz. now rewrite (orb_false_r (has_null [sep])).
    + now rewrite (path_names_app_sep a' n), path_names_sep_end, (path_names_one n).
  - repeat split.
    + destruct a; discriminate.
    + now apply startswith_sep_app.
    + change (a ++ sep :: n) with (a ++ [sep] ++ n).
      rewrite app_assoc, endswith_sep_app by assumption.
      now apply endswith_sep_no_sep.
    + change (a ++ sep :: n) with (a ++ [sep] ++ n).
      rewrite !has_null_app, Hz. change (has_null [sep]) with false.
      cbn [orb]. apply orb_false_r.
    + now rewrite (path_names_app_sep a n), (path_names_one n).
Qed.

Lemma names_a_directory_snoc (path : str) (names : list str) (n : str) :
  path_names path = names ++ [n] -> plain_name n = true ->
  names_a_directory path = false.
Proof.
  intros Hp Hn. apply plain_name_spec in Hn as (_ & _ & _ & Hd & Hdd).
  unfold names_a_directory. rewrite Hp, last_snoc.
  apply bool_decide_eq_false. tauto.
Qed.

(** A file opened under a directory joined with a plain name lies in the
    location the directory leads to, which is a directory. *)
Lemma slot_join (a n : str) (w : world) (l : loc) :
  a <> [] -> plain_name n = true ->
  slot (os_path_join a n) w = Ok l
  <-> has_null a = false
      /\ exists home, locate w a = At home /\ is_dir w home = true
                      /\ l = home ++ [n] /\ is_dir w l = false.
Proof.
  intros Ha Hn.
  destruct (os_path_join_plain a n Ha Hn) as (Jne & Jstart & Jend & Jz & Jnames).
  rewrite slot_Ok, Jz, Jend. unfold locate.
  assert (Hpa : py_not a = false) by (destruct a; [contradiction | reflexivity]).
  assert (Hpj : py_not (os_path_join a n) = false)
    by (destruct (os_path_join a n); [contradiction | reflexivity]).
  rewrite Hpa, Hpj, Jstart, Jnames, walk_snoc.
  rewrite (names_a_directory_snoc _ _ _ Jnames Hn).
  destruct (walk w _ (path_names a)) as [home|e].
  2: { split; [intros (_ & ? & _); discriminate
              | intros (_ & home & ? & _); discriminate]. }
  rewrite (step_plain _ n Hn).
  destruct (is_dir w home) eqn:Hh.
  - split.
    + intros (Hz & [= <-] & _ & _ & Hi). split; [exact Hz|].
      exists home. now repeat split.
    + intros (Hz & home' & [= <-] & _ & -> & Hi). now repeat split.
  - split.
    + intros (_ & ? & _); discriminate.
    + intros (_ & home' & [= <-] & Hh' & _). congruence.
Qed.

(** A file opened at a plain name lies in the working directory. *)
Lemma slot_plain (n : str) (w : world) (l : loc) :
  plain_name n = true ->
  slot n w = Ok l
  <-> is_dir w (cwd w) = true /\ l = cwd w ++ [n] /\ is_dir w l = false.
Proof.
  intros Hn. pose proof Hn as Hn'.
  apply plain_name_spec in Hn' as (Hne & Hs & Hz & Hd & Hdd).
  rewrite slot_Ok, Hz. unfold locate.
  rewrite startswith_sep_no_sep, endswith_sep_no_sep by assumption.
  assert (Hpy : py_not n = false) by (destruct n; [contradiction | reflexivity]).
  rewrite Hpy, (path_names_one n) by assumption.
  rewrite (names_a_directory_snoc n [] n) by (assumption || now apply path_names_one).
  cbn [walk]. rewrite (step_plain _ n Hn).
  split.
  - intros (_ & Hw & _ & _ & Hi). destruct (is_dir w (cwd w)); [|discriminate].
    injection Hw as <-. now repeat split.
  - intros (Hc & -> & Hi). rewrite Hc. now repeat split.
Qed.

(** *** Making directories *)

Lemma path_isdir_true (path : str) (w : world) :
  path_isdir path w = true
  <-> has_null path = false
      /\ exists l, locate w path = At l /\ is_dir w l = true.
Proof.
  unfold path_isdir, stat. destruct (has_null path).
  { split; [discriminate | intros [? _]; discriminate]. }
  destruct (locate w path) as [l|e].
  2: { split; [discriminate | intros (_ & l & ? & _); discriminate]. }
  destruct (is_dir w l) eqn:Hd.
  - split; [|reflexivity]. intros _. split; [reflexivity|]. now exists l.
  - split.
    + destruct (files w !! l); [destruct (endswith_sep path)|]; discriminate.
    + intros (_ & l' & [= <-] & Hd'). congruence.
Qed.

Lemma path_exists_isdir (path : str) (w : world) :
  path_isdir path w = true -> path_exists path w = true.
Proof.
  unfold path_isdir, path_exists. destruct (stat path w) as [[]|]; easy.
Qed.

(** A directory stays one when directories are added. *)
Lemma path_isdir_dirs (w w' : world) (path : str) :
  (forall d, d ∈ dirs w -> d ∈ dirs w') -> cwd w' = cwd w ->
  path_isdir path w = true -> path_isdir path w' = true.
Proof.
  intros Hsub Hc. rewrite !path_isdir_true. intros (Hz & l & Hl & Hd).
  split; [exact Hz|]. exists l. split.
  - now apply (locate_At_dirs w w').
  - apply is_dir_true in Hd. apply is_dir_true.
    destruct Hd as [->|Hd]; [now left | right; now apply Hsub].
Qed.

Lemma mkdir_cases (path : str) (w : world) :
  (exists e, mkdir path w = (Err e, w))
  \/ exists l, locate w path = At l /\ has_null path = false
               /\ names_a_directory path = false
               /\ is_dir w l = false /\ files w !! l = None
               /\ mkdir path w = (Ok tt, set_dirs w ({[l]} ∪ dirs w)).
Proof.
  unfold mkdir. destruct (has_null path); [left; eauto|].
  destruct (locate w path) as [l|e]; [|left; eauto].
  destruct (names_a_directory path); cbn [orb]; [left; eauto|].
  destruct (is_dir w l) eqn:Hd; cbn [orb]; [left; eauto|].
  destruct (files w !! l) as [data|] eqn:Hf.
  - rewrite bool_decide_eq_true_2 by eauto. left; eauto.
  - rewrite bool_decide_eq_false_2 by (intros [? ?]; discriminate).
    right. exists l. now repeat split.
Qed.

Lemma mkdir_exist_ok_cases (name : str) (w : world) :
  (exists e, mkdir_exist_ok name w = (Err e, w))
  \/ (mkdir_exist_ok name w = (Ok tt, w) /\ path_isdir name w = true)
  \/ exists l, locate w name = At l /\ has_null name = false
               /\ names_a_directory name = false
               /\ is_dir w l = false /\ files w !! l = None
               /\ mkdir_exist_ok name w = (Ok tt, set_dirs w ({[l]} ∪ dirs w)).
Proof.
  unfold mkdir_exist_ok.
  destruct (mkdir_cases name w) as [[e ->]|(l & Hl & Hz & Hn & Hd & Hf & ->)].
  - destruct (is_os_error e); cbn [andb]; [|left; eauto].
    destruct (path_isdir name w) eqn:Hi; [right; left; eauto | left; eauto].
  - right; right. exists l. now repeat split.
Qed.

(** After [mkdir] went through, or was let off, the name is a directory. *)
Lemma mkdir_exist_ok_isdir (name : str) (w w' : world) :
  mkdir_exist_ok name w = (Ok tt, w') -> path_isdir name w' = true.
Proof.
  destruct (mkdir_exist_ok_cases name w)
    as [[e ->]|[[-> Hi]|(l & Hl & Hz & Hn & Hd & Hf & ->)]].
  - discriminate.
  - now intros [= <-].
  - intros [= <-]. apply path_isdir_true. split; [exact Hz|]. exists l. split.
    + apply (locate_At_dirs w); [cbn; set_solver | reflexivity | exact Hl].
    + apply is_dir_true. right. cbn. set_solver.
Qed.

(** [mkdir] and [makedirs] only add directories, whatever they return. *)
Lemma mkdir_exist_ok_adds (name : str) (w : world) :
  let w' := snd (mkdir_exist_ok name w) in
  files w' = files w /\ (forall d, d ∈ dirs w -> d ∈ dirs w')
  /\ cwd w' = cwd w /\ endpoint w' = endpoint w /\ calls w' = calls w.
Proof.
  destruct (mkdir_exist_ok_cases name w)
    as [[e ->]|[[-> Hi]|(l & Hl & Hz & Hn & Hd & Hf & ->)]]; cbn;
    repeat split; try reflexivity; auto. set_solver.
Qed.

Lemma except_file_exists_world (m : M unit) (w : world) :
  snd (except_file_exists m w) = snd (m w).
Proof.
  unfold except_file_exists. destruct (m w) as [[[]|e] w']; [reflexivity|].
  destruct (is_file_exists_error e); reflexivity.
Qed.

Lemma makedirs_go_adds (fuel : nat) (name : str) (w : world) :
  let w' := snd (makedirs_go fuel name w) in
  files w' = files w /\ (forall d, d ∈ dirs w -> d ∈ dirs w')
  /\ cwd w' = cwd w /\ endpoint w' = endpoint w /\ calls w' = calls w.
Proof.
  revert name w. induction fuel as [|fuel IH]; intros name w;
    rewrite makedirs_go_unfold; destruct (makedirs_split name) as [head tail];
    destruct (_ && _); try apply mkdir_exist_ok_adds.
  pose proof (IH head w) as Hin.
  rewrite <- (except_file_exists_world (makedirs_go fuel head) w) in Hin.
  destruct (except_file_exists (makedirs_go fuel head) w) as [[[]|e] w1];
    cbn [snd] in Hin; [|exact Hin].
  destruct (decide (tail = dot)); [exact Hin|].
  pose proof (mkdir_exist_ok_adds name w1) as Hout.
  destruct Hin as (Hf & Hd & Hc & He & Hk), Hout as (Hf' & Hd' & Hc' & He' & Hk').
  cbn zeta. repeat split; try congruence. auto.
Qed.

Lemma makedirs_adds (name : str) (w : world) :
  let w' := snd (makedirs name w) in
  files w' = files w /\ (forall d, d ∈ dirs w -> d ∈ dirs w')
  /\ cwd w' = cwd w /\ endpoint w' = endpoint w /\ calls w' = calls w.
Proof. apply makedirs_go_adds. Qed.

(** The recursion of [makedirs] is on a shorter path, so that the length
    of the name is fuel enough. *)
Lemma posix_split_length (p head tail : str) :
  posix_split p = (head, tail) -> (length head + length tail <= length p)%nat.
Proof.
  intros Hp. apply posix_split_spec in Hp as (_ & _ & rest & ->).
  rewrite !length_app. lia.
Qed.

Lemma makedirs_split_shorter (name head tail : str) :
  makedirs_split name = (head, tail) -> tail <> [] ->
  (length head < length name)%nat.
Proof.
  unfold makedirs_split. destruct (posix_split name) as [h1 t1] eqn:E1.
  apply posix_split_length in E1.
  destruct t1 as [|c t1]; cbn [py_not].
  - intros E2 Ht. apply posix_split_length in E2.
    destruct tail; [contradiction|]. cbn [length] in *. lia.
  - intros [= <- <-] _. cbn [length] in *. lia.
Qed.

Lemma makedirs_go_fuel (f1 f2 : nat) (name : str) (w : world) :
  (length name <= f1)%nat -> (length name <= f2)%nat ->
  makedirs_go f1 name w = makedirs_go f2 name w.
Proof.
  revert f2 name w. induction f1 as [|f1 IH]; intros f2 name w H1 H2;
    rewrite !makedirs_go_unfold;
    destruct (makedirs_split name) as [head tail] eqn:Es;
    destruct (negb (py_not head) && negb (py_not tail)) eqn:Hc;
    cbn [andb]; try reflexivity;
    destruct (negb (path_exists head w)); try reflexivity;
    apply andb_prop in Hc as [_ Ht];
    assert (Hs : (length head < length name)%nat)
      by (apply (makedirs_split_shorter _ _ _ Es); now destruct tail).
  - lia.
  - destruct f2 as [|f2]; [lia|].
    unfold except_file_exists. rewrite (IH f2 head w) by lia. reflexivity.
Qed.

(** [makedirs] returns with the name a directory, unless the name ends in
    a [.] component (which [makedirs] returns on without looking). *)
Lemma makedirs_go_isdir (fuel : nat) (name : str) (w w' : world) :
  last (path_names name) <> Some dot ->
  makedirs_go fuel name w = (Ok tt, w') -> path_isdir name w' = true.
Proof.
  intros Hlast. rewrite makedirs_go_unfold.
  destruct (makedirs_split name) as [head tail] eqn:Es.
  assert (Ht : tail <> dot).
  { intros ->. apply makedirs_split_spec in Es as (_ & Hn & _).
    apply Hlast. rewrite Hn. change (path_names dot) with [dot].
    apply last_snoc. }
  destruct (_ && _); [|apply mkdir_exist_ok_isdir].
  destruct fuel as [|fuel]; [apply mkdir_exist_ok_isdir|].
  destruct (except_file_exists _ w) as [[[]|e] w1]; [|discriminate].
  destruct (decide (tail = dot)); [contradiction|]. apply mkdir_exist_ok_isdir.
Qed.

Lemma makedirs_isdir (name : str) (w w' : world) :
  last (path_names name) <> Some dot ->
  makedirs name w = (Ok tt, w') -> path_isdir name w' = true.
Proof. apply makedirs_go_isdir. Qed.

(** *** Making the directories of a plain path *)

Lemma is_os_error_of (e : errno) (path : str) : is_os_error (os_error_of e path) = true.
Proof. destruct e; reflexivity. Qed.








(** ** The transformation chain *)

Lemma run_stages_tree (image_path dog_breed : str) (w : world) :
  run_stages image_path dog_breed w = stages_tree image_path dog_breed w.
Proof.
  unfold stages_tree, run_stages, bind, try_except, responses_create,
    raise_if, lift, ret, raise, stage_outcome, request1, request2, request3.
  pose proof (read_file_world image_path w) as Hw.
  destruct (read_file image_path w) as [[image_data|e] w1];
    simpl in Hw; subst w1; [|reflexivity].
  cbn [fst calls log_call endpoint].
  destruct (endpoint w _) as [resp1|e]; [|reflexivity].
  destruct (image_data_of resp1) as [|p1 rest1]; [reflexivity|].
  cbn [py_not py_index nth_error calls log_call endpoint].
  destruct (endpoint w _) as [resp2|e]; [|reflexivity].
  destruct (image_data_of resp2) as [|p2 rest2]; [reflexivity|].
  cbn [py_not py_index nth_error calls log_call endpoint].
  destruct (endpoint w _) as [resp3|e]; [|reflexivity].
  destruct (image_data_of resp3) as [|p3 rest3]; reflexivity.
Qed.

Lemma stage_outcome_ok (stage : string) (reply : result response)
    (resp : response) (p : pyval) :
  stage_outcome stage reply = Ok (resp, p) ->
  reply = Ok resp /\ exists rest, image_data_of resp = p :: rest.
Proof.
  unfold stage_outcome. destruct reply as [r|e]; [|discriminate].
  destruct (image_data_of r) as [|q rest] eqn:E; [discriminate|].
  intros [= <- <-]. split; [reflexivity|]. exists rest. exact E.
Qed.

(** A successful run of the stages, taken apart. *)
Lemma run_stages_ok (image_path dog_breed : str) (w w' : world) (gi : manifest) :
  run_stages image_path dog_breed w = (Ok gi, w') ->
  exists image_data resp1 resp2 resp3 p1 p2 p3,
    fst (read_file image_path w) = Ok image_data
    /\ stage_outcome "1"
         (endpoint w (calls w ++ [request1 dog_breed image_data]))
       = Ok (resp1, p1)
    /\ stage_outcome "2"
         (endpoint w (calls w ++ [request1 dog_breed image_data;
                                  request2 dog_breed resp1]))
       = Ok (resp2, p2)
    /\ stage_outcome "3"
         (endpoint w (calls w ++ [request1 dog_breed image_data;
                                  request2 dog_breed resp1;
                                  request3 dog_breed resp2]))
       = Ok (resp3, p3)
    /\ gi = [(lit "image1_transition.png", p1);
             (lit "image2_transition.png", p2);
             (lit "image3_final_dog.png", p3)]
    /\ calls w' = calls w ++ [request1 dog_breed image_data;
                              request2 dog_breed resp1;
                              request3 dog_breed resp2]
    /\ files w' = files w /\ dirs w' = dirs w /\ endpoint w' = endpoint w
    /\ cwd w' = cwd w.
Proof.
  rewrite run_stages_tree. unfold stages_tree.
  destruct (fst (read_file image_path w)) as [image_data|e]; [|discriminate].
  cbn [calls log_call].
  destruct (stage_outcome "1" _) as [[resp1 p1]|e] eqn:H1; [|discriminate].
  destruct (stage_outcome "2" _) as [[resp2 p2]|e] eqn:H2; [|discriminate].
  destruct (stage_outcome "3" _) as [[resp3 p3]|e] eqn:H3; [|discriminate].
  intros [= <- <-].
  exists image_data, resp1, resp2, resp3, p1, p2, p3.
  cbn [calls files dirs endpoint cwd log_call].
  rewrite <- ?app_assoc in *. cbn [app] in *.
  repeat split; assumption || reflexivity.
Qed.

(** *** The save step *)

Lemma write_image_calls (filepath : str) (image_base64 : pyval) (w : world) :
  calls (snd (write_image filepath image_base64 w)) = calls w.
Proof.
  unfold write_image, bind, open_wb, lift, file_write.
  destruct (slot filepath w); [|reflexivity].
  destruct (b64decode image_base64); [|reflexivity].
  cbn [files set_files]. destruct (_ !! _); reflexivity.
Qed.

Lemma save_to_dir_calls (output_dir : str) (gi saved : manifest) (w : world) :
  calls (snd (save_to_dir output_dir gi saved w)) = calls w.
Proof.
  revert saved w. induction gi as [|[filename image_base64] gi IH]; intros saved w.
  - reflexivity.
  - cbn [save_to_dir]. unfold bind.
    pose proof (write_image_calls (os_path_join output_dir filename) image_base64 w) as Hc.
    destruct (write_image _ _ w) as [[[]|e] w1]; cbn [snd] in Hc |- *.
    + now rewrite IH.
    + exact Hc.
Qed.

Lemma save_to_cwd_calls (gi : manifest) (w : world) :
  calls (snd (save_to_cwd gi w)) = calls w.
Proof.
  revert w. induction gi as [|[filename image_base64] gi IH]; intros w.
  - reflexivity.
  - cbn [save_to_cwd]. unfold bind.
    pose proof (write_image_calls filename image_base64 w) as Hc.
    destruct (write_image _ _ w) as [[[]|e] w1]; cbn [snd] in Hc |- *.
    + now rewrite IH.
    + exact Hc.
Qed.

Lemma save_images_calls (output_dir : option str) (gi : manifest) (w : world) :
  calls (snd (save_images output_dir gi w)) = calls w.
Proof.
  unfold save_images. destruct output_dir as [[|c d]|].
  - unfold bind. pose proof (save_to_cwd_calls gi w) as Hc.
    destruct (save_to_cwd gi w) as [[[]|e] w1]; exact Hc.
  - unfold bind. pose proof (makedirs_adds (c :: d) w) as (_ & _ & _ & _ & Hc).
    destruct (makedirs (c :: d) w) as [[[]|e] w1]; cbn [snd] in Hc |- *;
      [|exact Hc].
    now rewrite save_to_dir_calls.
  - unfold bind. pose proof (save_to_cwd_calls gi w) as Hc.
    destruct (save_to_cwd gi w) as [[[]|e] w1]; exact Hc.
Qed.

(** The save step only issues no request: the calls of a whole run are
    those of its stages. *)
Lemma generate_progressive_images_calls
    (image_path dog_breed : str) (output_dir : option str) (w : world) :
  calls (snd (generate_progressive_images image_path dog_breed output_dir w))
  = calls (snd (run_stages image_path dog_breed w)).
Proof.
  unfold generate_progressive_images, bind.
  destruct (run_stages image_path dog_breed w) as [[gi|e] w1]; [|reflexivity].
  apply save_images_calls.
Qed.

Lemma save_to_dir_ok (output_dir : str) (gi saved m : manifest) (w w' : world) :
  save_to_dir output_dir gi saved w = (Ok m, w') ->
  m = saved ++ List.map (fun it => (os_path_join output_dir (fst it), snd it)) gi.
Proof.
  revert saved w. induction gi as [|[filename image_base64] gi IH]; intros saved w.
  - cbn. intros [= <- <-]. now rewrite app_nil_r.
  - cbn [save_to_dir]. unfold bind.
    destruct (write_image _ _ w) as [[[]|e] w1]; [|discriminate].
    intros Hs. apply IH in Hs. rewrite Hs, <- app_assoc. reflexivity.
Qed.

Lemma save_images_ok (output_dir : option str) (gi m : manifest) (w w' : world) :
  save_images output_dir gi w = (Ok m, w') ->
  m = List.map (fun it => (destination output_dir (fst it), snd it)) gi.
Proof.
  assert (Hid : forall l : manifest, List.map (fun it => (fst it, snd it)) l = l).
  { induction l as [|[a b] l IHl]; [reflexivity|]. cbn. now rewrite IHl. }
  unfold save_images, destination. destruct output_dir as [[|c d]|].
  - unfold bind, ret. destruct (save_to_cwd gi w) as [[[]|e] w1]; [|discriminate].
    intros [= <- <-]. now rewrite Hid.
  - unfold bind. destruct (makedirs (c :: d) w) as [[[]|e] w1]; [|discriminate].
    intros Hs. apply save_to_dir_ok in Hs. exact Hs.
  - unfold bind, ret. destruct (save_to_cwd gi w) as [[[]|e] w1]; [|discriminate].
    intros [= <- <-]. now rewrite Hid.
Qed.

(** C1, at the failing input: stage 1 is answered with an image-generation
    item whose [result] is [None], so it has produced no image; the stage-2
    and stage-3 requests are issued all the same. *)
Theorem none_result_does_not_stop_the_chain :
  endpoint world_none_result [request1 (lit "Pug") photo]
  = Ok (reply [request1 (lit "Pug") photo] [image_item PyNone])
  /\ List.map previous_response_id
       (calls (snd (generate_progressive_images (lit "me.jpg") (lit "Pug")
                      (Some (lit "out")) world_none_result)))
     = [None; Some (lit "resp_1"); Some (lit "resp_2")].
Proof. split; vm_compute; reflexivity. Qed.

(** C2, at the failing input: with a [result] of [None] in stage 1 no
    stage-numbered failure is raised; the run ends in the [TypeError] of
    [base64.b64decode(None)].  With an empty [result] the run succeeds and
    writes an empty file. *)
Theorem empty_result_is_not_a_stage_failure :
  fst (generate_progressive_images (lit "me.jpg") (lit "Pug")
         (Some (lit "out")) world_none_result)
  = Err (PyExc "TypeError"
           (lit "argument should be a bytes-like object or ASCII string, not 'NoneType'"))
  /\ fst (generate_progressive_images (lit "me.jpg") (lit "Pug")
            (Some (lit "out")) world_empty_result)
     = Ok [(lit "out/image1_transition.png", PyStr []);
           (lit "out/image2_transition.png", PyStr []);
           (lit "out/image3_final_dog.png", PyStr [])]
  /\ fst (read_file (lit "out/image1_transition.png")
            (snd (generate_progressive_images (lit "me.jpg") (lit "Pug")
                    (Some (lit "out")) world_empty_result)))
     = Ok [].
Proof. repeat split; vm_compute; reflexivity. Qed.

(** *** The requests of a run *)



(** *** The manifest *)

Lemma no_sep_rev (s : str) : no_sep s = true -> no_sep (rev s) = true.
Proof.
  unfold no_sep. rewrite !forallb_forall. intros Hs c Hc.
  apply Hs. now apply in_rev.
Qed.

Lemma up_to_sep_app (s t : str) :
  no_sep s = true -> up_to_sep (s ++ sep :: t) = s.
Proof.
  induction s as [|c s IH]; cbn.
  - intros _. reflexivity.
  - intros Hs. apply andb_prop in Hs as [Hc Hs].
    apply negb_true_iff in Hc. rewrite Hc. now rewrite IH.
Qed.

Lemma up_to_sep_all (s : str) : no_sep s = true -> up_to_sep s = s.
Proof.
  induction s as [|c s IH]; cbn; [reflexivity|].
  intros Hs. apply andb_prop in Hs as [Hc Hs].
  apply negb_true_iff in Hc. rewrite Hc. now rewrite IH.
Qed.

(** A file name without a slash is the last component of where it is saved. *)
Lemma basename_destination (output_dir : option str) (n : str) :
  no_sep n = true -> basename (destination output_dir n) = n.
Proof.
  intros Hn. pose proof (no_sep_rev n Hn) as Hr.
  assert (Hplain : basename n = n).
  { unfold basename. rewrite up_to_sep_all by assumption. apply rev_involutive. }
  unfold destination. destruct output_dir as [[|c d]|]; try exact Hplain.
  unfold os_path_join. rewrite startswith_sep_no_sep by assumption.
  cbn [py_not orb]. unfold basename.
  destruct (endswith_sep (c :: d)) eqn:He.
  - apply endswith_sep_inv in He as [a' ->].
    rewrite !rev_app_distr. cbn [rev app].
    rewrite up_to_sep_app by assumption. apply rev_involutive.
  - rewrite rev_app_distr. cbn [rev]. rewrite <- app_assoc. cbn [app].
    rewrite up_to_sep_app by assumption. apply rev_involutive.
Qed.

(** C4: a run that returns normally returns three pairs, one per stage in
    the order subtle, halfway, full: the stages built the list
    [image1_transition.png], [image2_transition.png], [image3_final_dog.png]
    with the image extracted at stage 1, 2 and 3, and the value returned
    pairs the same payloads, in the same order, with where each file was
    saved, whose file name is again that name. *)
Theorem manifest_of_three_named_pairs
    (image_path dog_breed : str) (output_dir : option str)
    (w w' : world) (m : manifest) :
  generate_progressive_images image_path dog_breed output_dir w = (Ok m, w') ->
  exists image_data resp1 resp2 resp3 p1 p2 p3 w1,
    fst (read_file image_path w) = Ok image_data
    /\ stage_outcome "1"
         (endpoint w (calls w ++ [request1 dog_breed image_data]))
       = Ok (resp1, p1)
    /\ stage_outcome "2"
         (endpoint w (calls w ++ [request1 dog_breed image_data;
                                  request2 dog_breed resp1]))
       = Ok (resp2, p2)
    /\ stage_outcome "3"
         (endpoint w (calls w ++ [request1 dog_breed image_data;
                                  request2 dog_breed resp1;
                                  request3 dog_breed resp2]))
       = Ok (resp3, p3)
    /\ run_stages image_path dog_breed w
       = (Ok [(lit "image1_transition.png", p1);
              (lit "image2_transition.png", p2);
              (lit "image3_final_dog.png", p3)], w1)
    /\ m = [(destination output_dir (lit "image1_transition.png"), p1);
            (destination output_dir (lit "image2_transition.png"), p2);
            (destination output_dir (lit "image3_final_dog.png"), p3)]
    /\ List.map (fun it => basename (fst it)) m
       = [lit "image1_transition.png"; lit "image2_transition.png";
          lit "image3_final_dog.png"].
Proof.
  unfold generate_progressive_images, bind.
  destruct (run_stages image_path dog_breed w) as [[gi|e] w1] eqn:Hrun;
    [|discriminate].
  intros Hsave. apply save_images_ok in Hsave.
  pose proof Hrun as Hrun'.
  apply run_stages_ok in Hrun'
    as (image_data & resp1 & resp2 & resp3 & p1 & p2 & p3
        & Hread & H1 & H2 & H3 & Hgi & _).
  subst gi. cbn [List.map fst snd] in Hsave.
  exists image_data, resp1, resp2, resp3, p1, p2, p3, w1.
  repeat split; try assumption.
  subst m. cbn [List.map fst].
  now rewrite !basename_destination by reflexivity.
Qed.

Lemma manifest_of_three_named_pairs_witness :
  generate_progressive_images (lit "me.jpg") (lit "Pug") (Some (lit "out"))
    world_two_images
  = (Ok [(lit "out/image1_transition.png", PyStr (lit "AQE="));
         (lit "out/image2_transition.png", PyStr (lit "AgE="));
         (lit "out/image3_final_dog.png", PyStr (lit "AwE="))],
     snd (generate_progressive_images (lit "me.jpg") (lit "Pug")
            (Some (lit "out")) world_two_images))
  /\ exists p1 p2 p3,
       fst (run_stages (lit "me.jpg") (lit "Pug") world_two_images)
       = Ok [(lit "image1_transition.png", p1);
             (lit "image2_transition.png", p2);
             (lit "image3_final_dog.png", p3)].
Proof.
  assert (Hrun : generate_progressive_images (lit "me.jpg") (lit "Pug")
                   (Some (lit "out")) world_two_images
    = (Ok [(lit "out/image1_transition.png", PyStr (lit "AQE="));
           (lit "out/image2_transition.png", PyStr (lit "AgE="));
           (lit "out/image3_final_dog.png", PyStr (lit "AwE="))],
       snd (generate_progressive_images (lit "me.jpg") (lit "Pug")
              (Some (lit "out")) world_two_images)))
    by (vm_compute; reflexivity).
  split; [exact Hrun|].
  destruct (manifest_of_three_named_pairs _ _ _ _ _ _ Hrun)
    as (_ & _ & _ & _ & p1 & p2 & p3 & w1 & _ & _ & _ & _ & Hstages & _).
  exists p1, p2, p3. now rewrite Hstages.
Defined.

(** *** Which image a stage keeps *)

Lemma image_generation_result_kind (o : output_item) (p : pyval) :
  image_generation_result o = Some p <-> image_kind_with_result o p.
Proof.
  unfold image_generation_result, image_kind_with_result.
  destruct (item_type o) as [[|t]|] eqn:Ht.
  all: try (split; [discriminate | intros [? _]; discriminate]).
  destruct (decide (t = lit "image_generation_call")) as [->|Hne].
  - split; [now intros -> | now intros [_ ->]].
  - split; [discriminate | intros [[= ->] _]; contradiction].
Qed.

Lemma image_data_of_first (resp : response) (p : pyval) (rest : list pyval) :
  image_data_of resp = p :: rest -> first_image_item resp p.
Proof.
  unfold image_data_of, first_image_item.
  induction (resp_output resp) as [|o l IH]; cbn; [discriminate|].
  destruct (image_generation_result o) as [q|] eqn:Ho.
  - intros [= -> _]. exists [], o, l.
    split; [reflexivity|]. split; [apply Forall_nil_2|].
    now apply image_generation_result_kind.
  - intros Hl. destruct (IH Hl) as (before & item & after & -> & Hb & Hi).
    exists (o :: before), item, after.
    split; [reflexivity|]. split; [|exact Hi].
    apply Forall_cons_2; [|exact Hb].
    intros q Hq. apply image_generation_result_kind in Hq. congruence.
Qed.

(** C10: in a run whose stages succeed, the payload of each stage is the
    [result] of the first item of that stage's response that has the type
    ["image_generation_call"] and a [result]; the items after it, matching
    or not, play no part. *)
Theorem first_matching_item_is_used
    (image_path dog_breed : str) (w w1 : world) (gi : manifest) :
  run_stages image_path dog_breed w = (Ok gi, w1) ->
  exists image_data resp1 resp2 resp3 p1 p2 p3,
    fst (read_file image_path w) = Ok image_data
    /\ endpoint w (calls w ++ [request1 dog_breed image_data]) = Ok resp1
    /\ endpoint w (calls w ++ [request1 dog_breed image_data;
                               request2 dog_breed resp1]) = Ok resp2
    /\ endpoint w (calls w ++ [request1 dog_breed image_data;
                               request2 dog_breed resp1;
                               request3 dog_breed resp2]) = Ok resp3
    /\ first_image_item resp1 p1
    /\ first_image_item resp2 p2
    /\ first_image_item resp3 p3
    /\ List.map snd gi = [p1; p2; p3].
Proof.
  intros Hrun.
  apply run_stages_ok in Hrun
    as (image_data & resp1 & resp2 & resp3 & p1 & p2 & p3
        & Hread & H1 & H2 & H3 & Hgi & _).
  apply stage_outcome_ok in H1 as [H1 [rest1 E1]].
  apply stage_outcome_ok in H2 as [H2 [rest2 E2]].
  apply stage_outcome_ok in H3 as [H3 [rest3 E3]].
  exists image_data, resp1, resp2, resp3, p1, p2, p3.
  subst gi.
  repeat split; try assumption; try reflexivity;
    eapply image_data_of_first; eassumption.
Qed.

Lemma first_matching_item_is_used_witness :
  fst (run_stages (lit "me.jpg") (lit "Pug") world_mixed_items)
  = Ok [(lit "image1_transition.png", PyStr (b64encode [1; 1]));
        (lit "image2_transition.png", PyStr (b64encode [2; 1]));
        (lit "image3_final_dog.png", PyStr (b64encode [3; 1]))]
  /\ exists resp1 p1,
       endpoint world_mixed_items [request1 (lit "Pug") photo] = Ok resp1
       /\ resp_output resp1
          = [tool_item; image_item p1; image_item (PyStr (b64encode [1; 2]))]
       /\ first_image_item resp1 p1.
Proof.
  assert (Hrun : run_stages (lit "me.jpg") (lit "Pug") world_mixed_items
    = (Ok [(lit "image1_transition.png", PyStr (b64encode [1; 1]));
           (lit "image2_transition.png", PyStr (b64encode [2; 1]));
           (lit "image3_final_dog.png", PyStr (b64encode [3; 1]))],
       snd (run_stages (lit "me.jpg") (lit "Pug") world_mixed_items)))
    by (vm_compute; reflexivity).
  split; [now rewrite Hrun|].
  destruct (first_matching_item_is_used _ _ _ _ _ Hrun)
    as (image_data & resp1 & resp2 & resp3 & p1 & p2 & p3
        & Hread & H1 & _ & _ & F1 & _ & _ & Hp).
  assert (Hphoto : fst (read_file (lit "me.jpg") world_mixed_items) = Ok photo)
    by (vm_compute; reflexivity).
  rewrite Hphoto in Hread. injection Hread as <-.
  cbn [calls world_mixed_items world_with app] in H1.
  assert (Hp1 : PyStr (b64encode [1; 1]) = p1)
    by (cbn [List.map snd] in Hp; congruence).
  exists resp1, p1. subst p1.
  split; [exact H1|]. split; [|exact F1].
  vm_compute in H1. injection H1 as <-. reflexivity.
Defined.

(** ** The save step, in general *)

Lemma set_files_id (w : world) : set_files w (files w) = w.
Proof. destruct w; reflexivity. Qed.

Lemma set_files_set_files (w : world) (fs fs' : gmap loc bytes) :
  set_files (set_files w fs) fs' = set_files w fs'.
Proof. reflexivity. Qed.

(** The three ways [write_image] ends: the file cannot be opened; it is
    opened and the payload decodes, and the file holds the bytes decoded;
    it is opened and the payload does not decode, and the file is left
    empty. *)
Lemma write_image_cases (filepath : str) (image_base64 : pyval) (w : world) :
  write_image filepath image_base64 w
  = match slot filepath w with
    | Err e => (Err e, w)
    | Ok l =>
        match b64decode image_base64 with
        | Ok data => (Ok tt, set_files w (<[l := data]> (files w)))
        | Err e => (Err e, set_files w (<[l := []]> (files w)))
        end
    end.
Proof.
  unfold write_image, bind, open_wb, lift, file_write.
  destruct (slot filepath w) as [l|e]; [|reflexivity].
  destruct (b64decode image_base64) as [data|e]; [|reflexivity].
  cbn [files set_files]. rewrite lookup_insert_eq.
  unfold set_files. cbn [files dirs cwd endpoint calls app].
  now rewrite insert_insert_eq.
Qed.

Lemma save_to_dir_fold (output_dir : str) (gi saved : manifest) (w : world) :
  save_to_dir output_dir gi saved w
  = match save_fold (os_path_join output_dir) gi w with
    | (Ok _, w') =>
        (Ok (saved ++ List.map (fun it => (os_path_join output_dir (fst it), snd it)) gi), w')
    | (Err e, w') => (Err e, w')
    end.
Proof.
  revert saved w. induction gi as [|[filename image_base64] gi IH]; intros saved w.
  - cbn. now rewrite app_nil_r.
  - cbn [save_to_dir save_fold List.map fst snd]. unfold bind.
    destruct (write_image _ _ w) as [[[]|e] w1]; [|reflexivity].
    rewrite IH. destruct (save_fold _ gi w1) as [[[]|e] w2]; [|reflexivity].
    now rewrite <- app_assoc.
Qed.

Lemma save_to_cwd_fold (gi : manifest) (w : world) :
  save_to_cwd gi w = save_fold (fun filename => filename) gi w.
Proof.
  revert w. induction gi as [|[filename image_base64] gi IH]; intros w.
  - reflexivity.
  - cbn [save_to_cwd save_fold]. unfold bind.
    destruct (write_image _ _ w) as [[[]|e] w1]; [apply IH | reflexivity].
Qed.

(** What a save loop leaves alone: the directories, the working directory,
    the endpoint, the calls, every file that is not where a destination is
    opened; and no file disappears. *)
Lemma save_fold_frame (dest : str -> str) (gi : manifest) (w : world) :
  let w' := snd (save_fold dest gi w) in
  dirs w' = dirs w /\ cwd w' = cwd w /\ endpoint w' = endpoint w
  /\ calls w' = calls w
  /\ (forall l, (forall g, In g gi -> slot (dest (fst g)) w <> Ok l) ->
                files w' !! l = files w !! l)
  /\ (forall l, is_Some (files w !! l) -> is_Some (files w' !! l)).
Proof.
  revert w. induction gi as [|[filename image_base64] gi IH]; intros w; cbn zeta.
  - cbn. repeat split; auto.
  - cbn [save_fold In]. rewrite write_image_cases.
    destruct (slot (dest filename) w) as [l0|e] eqn:Hs; [|cbn; repeat split; auto].
    assert (Hstep : forall data,
      let w1 := set_files w (<[l0 := data]> (files w)) in
      dirs w1 = dirs w /\ cwd w1 = cwd w /\ endpoint w1 = endpoint w
      /\ calls w1 = calls w
      /\ (forall l, l <> l0 -> files w1 !! l = files w !! l)
      /\ (forall l, is_Some (files w !! l) -> is_Some (files w1 !! l))).
    { intros data. cbn. repeat split; auto.
      - intros l Hl. now rewrite lookup_insert_ne by congruence.
      - intros l Hl. destruct (decide (l0 = l)) as [->|Hne].
        + rewrite lookup_insert_eq. eauto.
        + now rewrite lookup_insert_ne. }
    assert (Hl0 : forall l,
      (forall g, (filename, image_base64) = g \/ In g gi -> slot (dest (fst g)) w <> Ok l) ->
      l <> l0).
    { intros l Hl ->. apply (Hl (filename, image_base64)); [now left | exact Hs]. }
    destruct (b64decode image_base64) as [data|e].
    + destruct (Hstep data) as (D1 & W1 & E1 & C1 & F1 & S1).
      destruct (IH (set_files w (<[l0 := data]> (files w))))
        as (D2 & W2 & E2 & C2 & F2 & S2).
      repeat split; try congruence.
      * intros l Hl. rewrite F2.
        -- apply F1. now apply Hl0.
        -- intros g Hg Hsl. apply slot_set_files in Hsl.
           apply (Hl g); [now right | exact Hsl].
      * intros l Hl. apply S2, S1, Hl.
    + destruct (Hstep []) as (D1 & W1 & E1 & C1 & F1 & S1). cbn [snd].
      repeat split; try assumption.
      intros l Hl. apply F1. now apply Hl0.
Qed.

Lemma write_all_snoc (items : list (loc * bytes)) (it : loc * bytes)
    (fs : gmap loc bytes) :
  write_all (items ++ [it]) fs = <[fst it := snd it]> (write_all items fs).
Proof. unfold write_all. now rewrite foldl_snoc. Qed.

Lemma decoded_at_same_dirs (w w' : world) (dest : str -> str) (gi : manifest)
    (items : list (loc * bytes)) :
  dirs w' = dirs w -> cwd w' = cwd w ->
  decoded_at w dest gi items -> decoded_at w' dest gi items.
Proof.
  intros Hd Hc. unfold decoded_at. intros H2.
  eapply Forall2_impl; [exact H2|].
  intros g it [Hs Hb]. split; [|exact Hb]. now apply (slot_same_dirs w w').
Qed.

Lemma decoded_at_set_files (w : world) (fs : gmap loc bytes) (dest : str -> str)
    (gi : manifest) (items : list (loc * bytes)) :
  decoded_at (set_files w fs) dest gi items <-> decoded_at w dest gi items.
Proof. split; now apply decoded_at_same_dirs. Qed.

(** A save loop succeeds exactly when every destination can be opened for
    writing and every payload decodes; it then leaves the decoded images
    written in order. *)
Lemma save_fold_ok_iff (dest : str -> str) (gi : manifest) (w w' : world) :
  save_fold dest gi w = (Ok tt, w')
  <-> exists items,
        decoded_at w dest gi items
        /\ w' = set_files w (write_all items (files w)).
Proof.
  revert w. induction gi as [|[filename image_base64] gi IH]; intros w.
  - cbn. split.
    + intros [= <-]. exists []. split; [constructor|].
      symmetry. apply set_files_id.
    + intros (items & H2 & ->). apply Forall2_nil_inv_l in H2 as ->.
      cbn. now rewrite set_files_id.
  - cbn [save_fold]. rewrite write_image_cases.
    destruct (slot (dest filename) w) as [l0|e0] eqn:Hs.
    2:{ split; [discriminate|].
        intros (items & H2 & _).
        apply Forall2_cons_inv_l in H2 as ([p b] & items' & [Hp _] & _ & ->).
        cbn in Hp. congruence. }
    destruct (b64decode image_base64) as [data|e] eqn:Hdec.
    + rewrite IH. cbn [dirs set_files files]. split.
      * intros (items & H2 & ->).
        exists ((l0, data) :: items).
        split; [|reflexivity].
        constructor; [split; [exact Hs | exact Hdec]|].
        now apply decoded_at_set_files in H2.
      * intros (items & H2 & ->).
        apply Forall2_cons_inv_l in H2 as ([p b] & items' & [Hp Hb] & H2 & ->).
        cbn in Hp, Hb. rewrite Hs in Hp. injection Hp as <-.
        rewrite Hdec in Hb. injection Hb as <-.
        exists items'. split; [|reflexivity]. now apply decoded_at_set_files.
    + split; [discriminate|].
      intros (items & H2 & _).
      apply Forall2_cons_inv_l in H2 as ([p b] & items' & [_ Hb] & _ & ->).
      cbn in Hb. rewrite Hdec in Hb. discriminate.
Qed.

Lemma save_fold_app (dest : str -> str) (gi gi' : manifest) (w : world) :
  save_fold dest (gi ++ gi') w
  = match save_fold dest gi w with
    | (Ok _, w1) => save_fold dest gi' w1
    | (Err e, w1) => (Err e, w1)
    end.
Proof.
  revert w. induction gi as [|[filename image_base64] gi IH]; intros w.
  - reflexivity.
  - cbn [app save_fold].
    destruct (write_image _ _ w) as [[[]|e] w1]; [apply IH | reflexivity].
Qed.

Lemma write_all_frame (items : list (loc * bytes)) (fs : gmap loc bytes) (l : loc) :
  ~ In l (List.map fst items) -> write_all items fs !! l = fs !! l.
Proof.
  revert fs. induction items as [|[k v] items IH]; intros fs Hp; [reflexivity|].
  cbn in Hp. unfold write_all. cbn [foldl fst snd]. fold (write_all items (<[k:=v]> fs)).
  rewrite IH by tauto. apply lookup_insert_ne. intros ->. tauto.
Qed.

(** With distinct locations every entry written is read back. *)
Lemma write_all_lookup (items : list (loc * bytes)) (fs : gmap loc bytes)
    (l : loc) (data : bytes) :
  List.NoDup (List.map fst items) -> In (l, data) items ->
  write_all items fs !! l = Some data.
Proof.
  revert fs. induction items as [|[k v] items IH]; intros fs Hnd Hin; [destruct Hin|].
  cbn [List.map fst] in Hnd. apply List.NoDup_cons_iff in Hnd as [Hk Hnd].
  unfold write_all. cbn [foldl fst snd]. fold (write_all items (<[k:=v]> fs)).
  destruct Hin as [[= -> ->]|Hin].
  - rewrite write_all_frame by assumption. apply lookup_insert_eq.
  - now apply IH.
Qed.

(** Writing a location first makes no difference when it is written last. *)
Lemma write_all_absorb (items : list (loc * bytes)) (fs : gmap loc bytes)
    (k : loc) (v v' : bytes) :
  <[k := v]> (write_all items (<[k := v']> fs)) = <[k := v]> (write_all items fs).
Proof.
  revert fs. induction items as [|[k1 v1] items IH]; intros fs.
  - cbn. apply insert_insert_eq.
  - unfold write_all. cbn [foldl fst snd].
    fold (write_all items (<[k1:=v1]> (<[k:=v']> fs))).
    fold (write_all items (<[k1:=v1]> fs)).
    destruct (decide (k1 = k)) as [->|Hne].
    + now rewrite insert_insert_eq.
    + rewrite (insert_insert_ne _ k1 k) by assumption. apply IH.
Qed.

Lemma write_all_idemp (items : list (loc * bytes)) (fs : gmap loc bytes) :
  write_all items (write_all items fs) = write_all items fs.
Proof.
  induction items as [|it items IH] using rev_ind; [reflexivity|].
  now rewrite !write_all_snoc, write_all_absorb, IH.
Qed.

Lemma stages_tree_frame (image_path dog_breed : str) (w : world) :
  let w' := snd (stages_tree image_path dog_breed w) in
  files w' = files w /\ dirs w' = dirs w /\ cwd w' = cwd w
  /\ endpoint w' = endpoint w
  /\ exists issued, calls w' = calls w ++ issued /\ (length issued <= 3)%nat.
Proof.
  unfold stages_tree.
  destruct (fst (read_file image_path w)) as [image_data|e].
  2:{ cbn. repeat split. exists []. split; [now rewrite app_nil_r | cbn; lia]. }
  destruct (stage_outcome "1" _) as [[resp1 p1]|e].
  2:{ cbn. repeat split. eexists [_]. split; [reflexivity | cbn; lia]. }
  destruct (stage_outcome "2" _) as [[resp2 p2]|e].
  2:{ cbn. repeat split. eexists [_; _].
      rewrite <- app_assoc. split; [reflexivity | cbn; lia]. }
  assert (Hc : forall a b c : request,
             ((calls w ++ [a]) ++ [b]) ++ [c] = calls w ++ [a; b; c])
    by (intros; now rewrite <- !app_assoc).
  destruct (stage_outcome "3" _) as [[resp3 p3]|e];
    cbn; repeat split; eexists [_; _; _]; (split; [apply Hc | cbn; lia]).
Qed.

Lemma stage_manifest_names (p1 p2 p3 : pyval) :
  List.map fst
    [(lit "image1_transition.png", p1); (lit "image2_transition.png", p2);
     (lit "image3_final_dog.png", p3)]
  = stage_filenames.
Proof. reflexivity. Qed.

Lemma stage_filenames_plain : forallb plain_name stage_filenames = true.
Proof. vm_compute. reflexivity. Qed.

Lemma stage_filenames_nodup : List.NoDup stage_filenames.
Proof.
  repeat constructor; cbn [In]; intros H; repeat destruct H as [H|H];
    try discriminate H; assumption.
Qed.

(** [save_images] in terms of the fold: the output directory is made, when
    there is one, and the images are written at their destinations. *)
Lemma save_images_fold (output_dir : option str) (gi : manifest) (w : world) :
  save_images output_dir gi w
  = match match output_dir with
          | Some (c :: d) => makedirs (c :: d) w
          | _ => (Ok tt, w)
          end with
    | (Ok _, w1) =>
        match save_fold (destination output_dir) gi w1 with
        | (Ok _, w') =>
            (Ok (List.map (fun it => (destination output_dir (fst it), snd it)) gi), w')
        | (Err e, w') => (Err e, w')
        end
    | (Err e, w1) => (Err e, w1)
    end.
Proof.
  assert (Hid : forall l : manifest, List.map (fun it => (fst it, snd it)) l = l).
  { induction l as [|[a b] l IHl]; [reflexivity|]. cbn. now rewrite IHl. }
  unfold save_images.
  destruct output_dir as [[|c d]|].
  - unfold bind, ret. rewrite save_to_cwd_fold.
    change (destination (Some [])) with (fun filename : str => filename).
    destruct (save_fold _ gi w) as [[[]|e] w1]; [|reflexivity].
    cbn. now rewrite Hid.
  - unfold bind. destruct (makedirs (c :: d) w) as [[[]|e] w1]; [|reflexivity].
    rewrite save_to_dir_fold. reflexivity.
  - unfold bind, ret. rewrite save_to_cwd_fold.
    change (destination None) with (fun filename : str => filename).
    destruct (save_fold _ gi w) as [[[]|e] w1]; [|reflexivity].
    cbn. now rewrite Hid.
Qed.

(** Every directory [makedirs] makes is one that a prefix of the name leads
    to. *)
Lemma makedirs_go_bound (fuel : nat) :
  forall (name : str) (w : world) (d : loc),
    d ∈ dirs (snd (makedirs_go fuel name w)) ->
    d ∈ dirs w
    \/ exists pre rest, name = pre ++ rest
                        /\ locate (snd (makedirs_go fuel name w)) pre = At d.
Proof.
  assert (Hlast : forall name w d,
    d ∈ dirs (snd (mkdir_exist_ok name w)) ->
    d ∈ dirs w \/ locate (snd (mkdir_exist_ok name w)) name = At d).
  { intros name w d.
    destruct (mkdir_exist_ok_cases name w)
      as [[e ->]|[[-> _]|(l & Hl & _ & _ & _ & _ & ->)]]; cbn [snd]; auto.
    cbn [dirs set_dirs]. rewrite elem_of_union, elem_of_singleton.
    intros [->|Hd]; [right | now left].
    apply (locate_At_dirs w); [cbn; set_solver | reflexivity | exact Hl]. }
  assert (Hwhole : forall name w d,
    d ∈ dirs (snd (mkdir_exist_ok name w)) ->
    d ∈ dirs w
    \/ exists pre rest, name = pre ++ rest
                        /\ locate (snd (mkdir_exist_ok name w)) pre = At d).
  { intros name w d Hd. apply Hlast in Hd as [Hd|Hd]; [now left | right].
    exists name, []. now rewrite app_nil_r. }
  induction fuel as [|fuel IH]; intros name w d;
    rewrite makedirs_go_unfold;
    destruct (makedirs_split name) as [head tail] eqn:Es;
    destruct (_ && _); try apply Hwhole.
  apply makedirs_split_spec in Es as (_ & _ & rest0 & ->).
  pose proof (IH head w d) as Hin.
  pose proof (makedirs_go_adds fuel head w) as (_ & _ & Hc1 & _).
  rewrite <- (except_file_exists_world (makedirs_go fuel head) w) in Hin, Hc1.
  destruct (except_file_exists _ w) as [[[]|e] w1]; cbn [snd] in *.
  2:{ intros Hd. apply Hin in Hd as [Hd|(pre & rest & -> & Hl)]; [now left | right].
      exists pre, (rest ++ rest0). now rewrite app_assoc. }
  assert (Hup : forall w', (forall x, x ∈ dirs w1 -> x ∈ dirs w') -> cwd w' = cwd w1 ->
            d ∈ dirs w1 ->
            d ∈ dirs w
            \/ exists pre rest, head ++ rest0 = pre ++ rest /\ locate w' pre = At d).
  { intros w' Hsub Hc Hd. apply Hin in Hd as [Hd|(pre & rest & -> & Hl)]; [now left|].
    right. exists pre, (rest ++ rest0). split; [now rewrite app_assoc|].
    now apply (locate_At_dirs w1). }
  destruct (decide (tail = dot)); cbn [snd]; [now apply Hup|].
  intros Hd. pose proof (mkdir_exist_ok_adds (head ++ rest0) w1) as (_ & Hsub & Hc & _).
  apply Hlast in Hd as [Hd|Hd].
  - now apply Hup.
  - right. exists (head ++ rest0), []. now rewrite app_nil_r.
Qed.

(** The frame of the save step, whatever its outcome. *)
Lemma save_images_frame (output_dir : option str) (gi : manifest) (w : world) :
  let w' := snd (save_images output_dir gi w) in
  (forall l, (forall g, In g gi -> locate w' (destination output_dir (fst g)) <> At l) ->
             files w' !! l = files w !! l)
  /\ (forall l, is_Some (files w !! l) -> is_Some (files w' !! l))
  /\ (forall d, d ∈ dirs w -> d ∈ dirs w')
  /\ (forall d, d ∈ dirs w' ->
        d ∈ dirs w
        \/ exists name pre rest, output_dir = Some name /\ name = pre ++ rest
                                 /\ locate w' pre = At d)
  /\ (match output_dir with Some (_ :: _) => True | _ => dirs w' = dirs w end)
  /\ cwd w' = cwd w /\ endpoint w' = endpoint w /\ calls w' = calls w.
Proof.
  cbn zeta. rewrite save_images_fold.
  set (made := match output_dir with
               | Some (c :: d) => makedirs (c :: d) w
               | _ => (Ok tt, w)
               end).
  assert (Hmade :
    files (snd made) = files w /\ (forall d, d ∈ dirs w -> d ∈ dirs (snd made))
    /\ cwd (snd made) = cwd w /\ endpoint (snd made) = endpoint w
    /\ calls (snd made) = calls w
    /\ (forall d, d ∈ dirs (snd made) ->
          d ∈ dirs w
          \/ exists name pre rest, output_dir = Some name /\ name = pre ++ rest
                                   /\ locate (snd made) pre = At d)
    /\ (match output_dir with Some (_ :: _) => True | _ => dirs (snd made) = dirs w end)).
  { unfold made. destruct output_dir as [[|c d]|]; cbn [snd];
      try (repeat split; auto; fail).
    pose proof (makedirs_adds (c :: d) w) as (F & D & C & E & K).
    repeat split; try assumption.
    intros d0 Hd0. apply makedirs_go_bound in Hd0 as [Hd0|(pre & rest & Hn & Hl)];
      [now left | right]. exists (c :: d), pre, rest. now repeat split. }
  destruct Hmade as (F1 & D1 & C1 & E1 & K1 & B1 & N1).
  destruct made as [[[]|e] w1]; cbn [snd] in *.
  2:{ repeat split; try assumption. intros l _. now rewrite F1.
      intros l. now rewrite F1. }
  pose proof (save_fold_frame (destination output_dir) gi w1)
    as (D2 & C2 & E2 & K2 & F2 & S2).
  assert (Hsnd : forall r : result manifest * world,
    snd r = snd (save_fold (destination output_dir) gi w1) ->
    (forall l, (forall g, In g gi -> locate (snd r) (destination output_dir (fst g)) <> At l) ->
               files (snd r) !! l = files w !! l)
    /\ (forall l, is_Some (files w !! l) -> is_Some (files (snd r) !! l))
    /\ (forall d, d ∈ dirs w -> d ∈ dirs (snd r))
    /\ (forall d, d ∈ dirs (snd r) ->
          d ∈ dirs w
          \/ exists name pre rest, output_dir = Some name /\ name = pre ++ rest
                                   /\ locate (snd r) pre = At d)
    /\ (match output_dir with Some (_ :: _) => True | _ => dirs (snd r) = dirs w end)
    /\ cwd (snd r) = cwd w /\ endpoint (snd r) = endpoint w
    /\ calls (snd r) = calls w).
  { intros r ->. cbn zeta in *. rewrite D2.
    assert (Hloc : forall p l, locate w1 p = At l ->
              locate (snd (save_fold (destination output_dir) gi w1)) p = At l).
    { intros p l. apply locate_At_dirs; [now rewrite D2 | exact C2]. }
    repeat split; try congruence.
    - intros l Hl. rewrite F2, F1; [reflexivity|].
      intros g Hg Hs. apply slot_Ok in Hs as (_ & Hs & _).
      apply (Hl g Hg). now apply Hloc.
    - intros l Hl. apply S2. now rewrite F1.
    - assumption.
    - intros d Hd. apply B1 in Hd as [Hd|(name & pre & rest & Ho & Hn & Hl)];
        [now left | right]. exists name, pre, rest. repeat split; auto. }
  apply Hsnd. destruct (save_fold _ gi w1) as [[[]|e] w2]; reflexivity.
Qed.

(** *** Where the files of a save lie *)

(** The destinations of plain file names are opened in one directory: the
    one the output directory leads to, or the working directory. *)
Lemma destination_home (output_dir : option str) (w : world) :
  exists home,
    forall n l, plain_name n = true ->
      (slot (destination output_dir n) w = Ok l
       <-> is_dir w home = true /\ l = home ++ [n] /\ is_dir w l = false
           /\ match output_dir with
              | Some (c :: d) => has_null (c :: d) = false
                                 /\ locate w (c :: d) = At home
              | _ => home = cwd w
              end).
Proof.
  assert (Hcwd : exists home, forall n l, plain_name n = true ->
            (slot n w = Ok l
             <-> is_dir w home = true /\ l = home ++ [n] /\ is_dir w l = false
                 /\ home = cwd w)).
  { exists (cwd w). intros n l Hn. rewrite (slot_plain n w l Hn). tauto. }
  destruct output_dir as [[|c d]|]; try exact Hcwd. clear Hcwd. cbn [destination].
  destruct (locate w (c :: d)) as [home|e] eqn:Hl.
  - exists home. intros n l Hn. rewrite slot_join, Hl by (assumption || discriminate).
    split.
    + intros (Hz & home' & [= <-] & Hh & -> & Hi). now repeat split.
    + intros (Hh & -> & Hi & Hz & _). split; [exact Hz|]. exists home. now repeat split.
  - exists []. intros n l Hn. rewrite slot_join, Hl by (assumption || discriminate).
    split.
    + intros (_ & home' & ? & _). discriminate.
    + intros (_ & _ & _ & _ & ?). discriminate.
Qed.

Lemma decoded_at_In (w : world) (dest : str -> str) (gi : manifest)
    (items : list (loc * bytes)) (g : str * pyval) :
  decoded_at w dest gi items -> In g gi ->
  exists l data, slot (dest (fst g)) w = Ok l /\ b64decode (snd g) = Ok data
                 /\ In (l, data) items.
Proof.
  unfold decoded_at. induction 1 as [|g' [p b] gi items [Hp Hb] _ IH]; [intros []|].
  cbn in Hp, Hb. intros [<-|Hin].
  - exists p, b. repeat split; [assumption.. | now left].
  - destruct (IH Hin) as (l & data & Hs & Hd & Hi).
    exists l, data. repeat split; [assumption.. | now right].
Qed.

(** With distinct plain names the files of a save lie at distinct
    locations. *)
Lemma decoded_at_nodup (w : world) (output_dir : option str) (gi : manifest)
    (items : list (loc * bytes)) :
  decoded_at w (destination output_dir) gi items ->
  forallb plain_name (List.map fst gi) = true ->
  List.NoDup (List.map fst gi) ->
  List.NoDup (List.map fst items).
Proof.
  destruct (destination_home output_dir w) as [home Hhome].
  unfold decoded_at. induction 1 as [|g [l b] gi items [Hp _] H2 IH]; intros Hpl Hnd.
  - constructor.
  - cbn [List.map fst forallb] in *. apply andb_prop in Hpl as [Hg Hpl].
    apply List.NoDup_cons_iff in Hnd as [Hg' Hnd].
    constructor; [|now apply IH].
    apply (Hhome _ _ Hg) in Hp as (_ & -> & _).
    intros Hin. apply Hg'. clear IH Hnd Hg'.
    induction H2 as [|g2 [l2 b2] gi items [Hp2 _] _ IH2]; [destruct Hin|].
    cbn [List.map fst forallb In] in *. apply andb_prop in Hpl as [Hg2 Hpl].
    destruct Hin as [Hin|Hin]; [left | right; now apply IH2].
    apply (Hhome _ _ Hg2) in Hp2 as (_ & -> & _).
    now apply app_inj_tail in Hin as [_ ->].
Qed.

(** With distinct plain names, every image of a successful save is read
    back, decoded, from its destination. *)
Lemma decoded_at_on_disk (w w' : world) (output_dir : option str) (gi : manifest)
    (items : list (loc * bytes)) :
  decoded_at w (destination output_dir) gi items ->
  forallb plain_name (List.map fst gi) = true ->
  List.NoDup (List.map fst gi) ->
  w' = set_files w (write_all items (files w)) ->
  List.Forall (fun g => exists data,
                 b64decode (snd g) = Ok data
                 /\ fst (read_file (destination output_dir (fst g)) w') = Ok data) gi.
Proof.
  intros Hdec Hpl Hnd ->. apply List.Forall_forall. intros g Hg.
  destruct (decoded_at_In _ _ _ _ _ Hdec Hg) as (l & data & Hs & Hd & Hi).
  exists data. split; [assumption|].
  apply (read_slot _ _ l); [now apply slot_set_files|].
  cbn [files set_files]. apply write_all_lookup; [|assumption].
  now apply (decoded_at_nodup w output_dir gi).
Qed.

Lemma Forall_relocated (dest : str -> str) (P : str -> pyval -> Prop) (gi : manifest) :
  List.Forall (fun g => P (dest (fst g)) (snd g)) gi ->
  List.Forall (fun it => P (fst it) (snd it))
    (List.map (fun g => (dest (fst g), snd g)) gi).
Proof. induction 1; cbn; constructor; assumption. Qed.

Lemma run_manifest_on_disk
    (image_path dog_breed : str) (output_dir : option str)
    (w w' : world) (m : manifest) :
  generate_progressive_images image_path dog_breed output_dir w = (Ok m, w') ->
  List.Forall (fun it => exists data, b64decode (snd it) = Ok data
                           /\ fst (read_file (fst it) w') = Ok data) m.
Proof.
  unfold generate_progressive_images, bind.
  destruct (run_stages image_path dog_breed w) as [[gi|e] w1] eqn:Hrun;
    [|discriminate].
  apply run_stages_ok in Hrun
    as (_ & _ & _ & _ & p1 & p2 & p3 & _ & _ & _ & _ & -> & _).
  rewrite save_images_fold.
  destruct (match output_dir with Some (c :: d) => makedirs (c :: d) w1 | _ => (Ok tt, w1) end)
    as [[[]|e] w2]; [|discriminate].
  destruct (save_fold _ _ w2) as [[[]|e] w3] eqn:Hfold; [|discriminate].
  intros [= <- <-]. apply save_fold_ok_iff in Hfold as (items & Hdec & Hw).
  apply (Forall_relocated (destination output_dir)
           (fun path payload => exists data, b64decode payload = Ok data
                                 /\ fst (read_file path w3) = Ok data)
           [(lit "image1_transition.png", p1); (lit "image2_transition.png", p2);
            (lit "image3_final_dog.png", p3)]).
  apply (decoded_at_on_disk w2 w3 output_dir _ items Hdec); [| |exact Hw].
  - rewrite stage_manifest_names. apply stage_filenames_plain.
  - rewrite stage_manifest_names. apply stage_filenames_nodup.
Qed.

(** *** What a run changes, and what it leaves alone *)

(** The frame of a run, whatever its outcome. *)
Lemma run_frame
    (image_path dog_breed : str) (output_dir : option str) (w : world) :
  let w' := snd (generate_progressive_images image_path dog_breed output_dir w) in
  (forall l,
      (forall n, In n stage_filenames -> locate w' (destination output_dir n) <> At l) ->
      files w' !! l = files w !! l)
  /\ (forall l, is_Some (files w !! l) -> is_Some (files w' !! l))
  /\ (forall d, d ∈ dirs w -> d ∈ dirs w')
  /\ (forall d, d ∈ dirs w' ->
        d ∈ dirs w
        \/ exists name pre rest, output_dir = Some name /\ name = pre ++ rest
                                 /\ locate w' pre = At d)
  /\ (match output_dir with Some (_ :: _) => True | _ => dirs w' = dirs w end)
  /\ cwd w' = cwd w
  /\ endpoint w' = endpoint w
  /\ exists issued, calls w' = calls w ++ issued /\ (length issued <= 3)%nat.
Proof.
  cbn zeta. unfold generate_progressive_images, bind.
  pose proof (stages_tree_frame image_path dog_breed w)
    as (F & D & W & E & issued & C & L).
  rewrite <- run_stages_tree in F, D, W, E, C.
  destruct (run_stages image_path dog_breed w) as [[gi|e] w1] eqn:Hrun;
    cbn [snd] in F, D, W, E, C |- *.
  - apply run_stages_ok in Hrun
      as (_ & _ & _ & _ & p1 & p2 & p3 & _ & _ & _ & _ & -> & _).
    pose proof (save_images_frame output_dir
                  [(lit "image1_transition.png", p1);
                   (lit "image2_transition.png", p2);
                   (lit "image3_final_dog.png", p3)] w1)
      as (F2 & S2 & D2 & D2' & N2 & W2 & E2 & C2).
    cbn zeta in F2, S2, D2, D2', N2, W2, E2, C2.
    rewrite F, D in *.
    repeat split; try assumption; try congruence.
    + intros l Hl. apply F2. intros g Hg. apply Hl.
      rewrite <- (stage_manifest_names p1 p2 p3). now apply in_map.
    + exists issued. split; [congruence | assumption].
  - rewrite F, D. repeat split; auto.
    + destruct output_dir as [[|c d]|]; auto.
    + exists issued. now split.
Qed.

(** *** Saving under a plain output directory *)




Lemma os_path_join_inj (a n n' : str) :
  startswith_sep n = false -> startswith_sep n' = false ->
  os_path_join a n = os_path_join a n' -> n = n'.
Proof.
  intros Hn Hn'. unfold os_path_join. rewrite Hn, Hn'.
  destruct (py_not a || endswith_sep a); intros E.
  - now apply app_inv_head in E.
  - apply app_inv_head in E. now injection E.
Qed.






(** X4: whatever its outcome, a run changes no file other than those its
    three destinations lead to, removes no file and no directory, makes no
    directory other than those a prefix of the output directory leads to
    (and none at all without an output directory), stays in its working
    directory, leaves the endpoint as it is, and adds at most three calls to
    the log. *)
Theorem run_changes_only_its_destinations
    (image_path dog_breed : str) (output_dir : option str) (w : world) :
  let w' := snd (generate_progressive_images image_path dog_breed output_dir w) in
  (forall l,
      (forall n, In n stage_filenames -> locate w' (destination output_dir n) <> At l) ->
      files w' !! l = files w !! l)
  /\ (forall l, is_Some (files w !! l) -> is_Some (files w' !! l))
  /\ (forall d, d ∈ dirs w -> d ∈ dirs w')
  /\ (forall d, d ∈ dirs w' ->
        d ∈ dirs w
        \/ exists name pre rest, output_dir = Some name /\ name = pre ++ rest
                                 /\ locate w' pre = At d)
  /\ (match output_dir with Some (_ :: _) => True | _ => dirs w' = dirs w end)
  /\ cwd w' = cwd w
  /\ endpoint w' = endpoint w
  /\ exists issued, calls w' = calls w ++ issued /\ (length issued <= 3)%nat.
Proof. apply run_frame. Qed.

(** X5: when a run returns normally, every pair it returns has a payload
    that base64-decodes, and the file read at the pair's path holds exactly
    the decoded bytes. *)
Theorem returned_manifest_is_on_disk
    (image_path dog_breed : str) (output_dir : option str)
    (w w' : world) (m : manifest) :
  generate_progressive_images image_path dog_breed output_dir w = (Ok m, w') ->
  List.Forall (fun it => exists data, b64decode (snd it) = Ok data
                           /\ fst (read_file (fst it) w') = Ok data) m.
Proof. apply run_manifest_on_disk. Qed.

Lemma returned_manifest_is_on_disk_witness :
  exists m w',
    generate_progressive_images (lit "me.jpg") (lit "Pug") (Some (lit "out"))
      world_two_images = (Ok m, w')
    /\ List.map fst m = [lit "out/image1_transition.png";
                         lit "out/image2_transition.png";
                         lit "out/image3_final_dog.png"]
    /\ List.Forall (fun it => exists data, b64decode (snd it) = Ok data
                                /\ fst (read_file (fst it) w') = Ok data) m.
Proof.
  eexists _, _. split; [vm_compute; reflexivity|]. split; [reflexivity|].
  eapply (returned_manifest_is_on_disk (lit "me.jpg") (lit "Pug") (Some (lit "out"))
            world_two_images).
  vm_compute. reflexivity.
Defined.

(** *** Saving, beyond the successful case *)

(** X6: when the output directory has been made and the payload of one
    image does not decode, the save step raises the decoder's error at that
    image: the images before it are on disk, decoded; the file of the
    undecodable one has been created and is empty; the images after it are
    not written. *)
Theorem save_stops_at_undecodable_payload
    (output_dir filename : str) (payload : pyval) (before after : manifest)
    (items : list (loc * bytes)) (l : loc) (e : exn) (w w1 : world) :
  output_dir <> [] ->
  makedirs output_dir w = (Ok tt, w1) ->
  decoded_at w1 (os_path_join output_dir) before items ->
  slot (os_path_join output_dir filename) w1 = Ok l ->
  b64decode payload = Err e ->
  exists w',
    save_images (Some output_dir) (before ++ ((filename, payload) :: after)) w
    = (Err e, w')
    /\ files w' = <[l := []]> (write_all items (files w))
    /\ dirs w' = dirs w1
    /\ (forall d, d ∈ dirs w -> d ∈ dirs w')
    /\ cwd w' = cwd w.
Proof.
  intros Hd Hmk Hdec Hslot Hbad.
  pose proof (makedirs_adds output_dir w) as (F & D & C & _).
  rewrite Hmk in F, D, C. cbn [snd] in F, D, C.
  rewrite save_images_fold.
  destruct output_dir as [|c d]; [contradiction|]. rewrite Hmk.
  change (destination (Some (c :: d))) with (os_path_join (c :: d)).
  rewrite save_fold_app.
  assert (Hbefore : save_fold (os_path_join (c :: d)) before w1
                    = (Ok tt, set_files w1 (write_all items (files w1)))).
  { apply save_fold_ok_iff. exists items. now split. }
  rewrite Hbefore. cbn [save_fold]. rewrite write_image_cases.
  apply (slot_set_files w1 (write_all items (files w1))) in Hslot.
  rewrite Hslot, Hbad. eexists. split; [reflexivity|].
  cbn [files dirs cwd set_files]. rewrite F. repeat split; assumption.
Qed.

Lemma save_stops_at_undecodable_payload_witness :
  exists w',
    save_images (Some (lit "out"))
      ([(lit "image1_transition.png", PyStr (lit "iVBO"))]
       ++ ((lit "image2_transition.png", PyNone)
           :: [(lit "image3_final_dog.png", PyStr (lit "iVBO"))]))
      world_two_images
    = (Err (PyExc "TypeError"
              (lit "argument should be a bytes-like object or ASCII string, not 'NoneType'")),
       w')
    /\ fst (read_file (lit "out/image1_transition.png") w') = Ok [137; 80; 78]
    /\ fst (read_file (lit "out/image2_transition.png") w') = Ok []
    /\ path_exists (lit "out/image3_final_dog.png") w' = false.
Proof.
  destruct (save_stops_at_undecodable_payload (lit "out")
              (lit "image2_transition.png") PyNone
              [(lit "image1_transition.png", PyStr (lit "iVBO"))]
              [(lit "image3_final_dog.png", PyStr (lit "iVBO"))]
              [(app_home ++ [lit "out"; lit "image1_transition.png"], [137; 80; 78])]
              (app_home ++ [lit "out"; lit "image2_transition.png"])
              (PyExc "TypeError"
                 (lit "argument should be a bytes-like object or ASCII string, not 'NoneType'"))
              world_two_images
              (snd (makedirs (lit "out") world_two_images)))
    as (w' & Hsave & Hfiles & Hdirs & _ & Hcwd).
  - discriminate.
  - vm_compute. reflexivity.
  - repeat constructor; vm_compute; reflexivity.
  - vm_compute. reflexivity.
  - reflexivity.
  - exists w'. split; [exact Hsave|].
    assert (Hw : forall path, fst (read_file path w')
              = fst (read_file path
                       (set_files (snd (makedirs (lit "out") world_two_images))
                          (<[app_home ++ [lit "out"; lit "image2_transition.png"] := []]>
                             (write_all
                                [(app_home ++ [lit "out"; lit "image1_transition.png"],
                                  [137; 80; 78])]
                                (files world_two_images)))))).
    { intros path. apply read_file_same; [exact Hfiles | exact Hdirs|].
      rewrite Hcwd. vm_compute. reflexivity. }
    split; [rewrite Hw; vm_compute; reflexivity|].
    split; [rewrite Hw; vm_compute; reflexivity|].
    unfold path_exists.
    rewrite (stat_same (set_files (snd (makedirs (lit "out") world_two_images))
                          (<[app_home ++ [lit "out"; lit "image2_transition.png"] := []]>
                             (write_all
                                [(app_home ++ [lit "out"; lit "image1_transition.png"],
                                  [137; 80; 78])]
                                (files world_two_images)))) w');
      [vm_compute; reflexivity | exact Hfiles | exact Hdirs|].
    rewrite Hcwd. vm_compute. reflexivity.
Defined.

(** A directory that is there has the directory above it. *)
Lemma path_isdir_head (name head tail : str) (w : world) :
  makedirs_split name = (head, tail) -> head <> [] -> tail <> [] ->
  path_isdir name w = true -> path_exists head w = true.
Proof.
  intros Es Hh Ht Hi.
  apply makedirs_split_spec in Es as (Hs & Hn & rest & ->).
  apply path_isdir_true in Hi as (Hz & l & Hl & Hd).
  rewrite has_null_app in Hz. apply orb_false_elim in Hz as [Hz _].
  unfold locate in Hl.
  assert (Hpy : py_not (head ++ rest) = false) by (destruct head; [contradiction | reflexivity]).
  rewrite Hpy, startswith_sep_app, Hn, (path_names_one tail) in Hl by assumption.
  rewrite walk_snoc in Hl.
  destruct (walk w _ (path_names head)) as [l0|e] eqn:Hw; [|discriminate].
  destruct (is_dir w l0) eqn:Hd0; [|discriminate].
  apply path_exists_isdir, path_isdir_true. split; [exact Hz|].
  exists l0. split; [|exact Hd0]. unfold locate.
  destruct head; [contradiction | exact Hw].
Qed.

(** On a directory that is there, [makedirs] does nothing. *)
Lemma makedirs_go_there (fuel : nat) (name : str) (w : world) :
  path_isdir name w = true -> makedirs_go fuel name w = (Ok tt, w).
Proof.
  intros Hi.
  assert (Hm : mkdir_exist_ok name w = (Ok tt, w)).
  { pose proof Hi as Hi'. apply path_isdir_true in Hi' as (Hz & l & Hl & Hd).
    unfold mkdir_exist_ok, mkdir. rewrite Hz, Hl, Hd, orb_true_r. cbn [orb].
    now rewrite is_os_error_of, Hi. }
  rewrite makedirs_go_unfold. destruct (makedirs_split name) as [head tail] eqn:Es.
  destruct (negb (py_not head) && negb (py_not tail)) eqn:Hc; cbn [andb];
    [|exact Hm].
  apply andb_prop in Hc as [Hh Ht].
  rewrite (path_isdir_head name head tail w Es); try assumption.
  - now destruct head.
  - now destruct tail.
Qed.

(** X7: saving is idempotent: after a save that succeeded, the same save
    succeeds again, returns the same list and leaves the world as it is.
    An output directory whose last component is [.] is left out: on such a
    name [makedirs] may return without the directory being there. *)
Theorem saving_again_changes_nothing
    (output_dir : option str) (gi m : manifest) (w w1 : world) :
  (forall name, output_dir = Some name -> last (path_names name) <> Some dot) ->
  save_images output_dir gi w = (Ok m, w1) ->
  save_images output_dir gi w1 = (Ok m, w1).
Proof.
  intros Hdot. rewrite !save_images_fold.
  assert (Hagain : forall w0 w2,
    save_fold (destination output_dir) gi w0 = (Ok tt, w2) ->
    save_fold (destination output_dir) gi w2 = (Ok tt, w2)).
  { intros w0 w2 Hfold. apply save_fold_ok_iff in Hfold as (items & Hdec & ->).
    apply save_fold_ok_iff. exists items.
    split; [now apply decoded_at_set_files|].
    cbn [files set_files]. now rewrite set_files_set_files, write_all_idemp. }
  assert (Hmade : forall w0, match output_dir with
                             | Some (c :: d) => makedirs (c :: d) w
                             | _ => (Ok tt, w)
                             end = (Ok tt, w0) ->
            forall w2, dirs w2 = dirs w0 -> cwd w2 = cwd w0 ->
            match output_dir with
            | Some (c :: d) => makedirs (c :: d) w2
            | _ => (Ok tt, w2)
            end = (Ok tt, w2)).
  { intros w0 Hmk w2 Hd Hc. destruct output_dir as [[|c d]|]; try reflexivity.
    apply makedirs_go_there. apply (path_isdir_dirs w0); [now rewrite Hd | exact Hc|].
    apply (makedirs_isdir _ w); [now apply Hdot | exact Hmk]. }
  destruct (match output_dir with Some (c :: d) => makedirs (c :: d) w | _ => (Ok tt, w) end)
    as [[[]|e] w0] eqn:Hmk; [|discriminate].
  destruct (save_fold _ gi w0) as [[[]|e] w2] eqn:Hfold; [|discriminate].
  intros [= <- <-].
  pose proof (save_fold_frame (destination output_dir) gi w0) as (D & C & _).
  rewrite Hfold in D, C. cbn [snd] in D, C.
  rewrite (Hmade w0 eq_refl w2 D C), (Hagain w0 w2 Hfold). reflexivity.
Qed.

Lemma saving_again_changes_nothing_witness :
  exists m w1,
    save_images (Some (lit "out"))
      [(lit "a.png", PyStr (lit "iVBO")); (lit "a.png", PyStr (lit "iVA="))]
      world_two_images = (Ok m, w1)
    /\ fst (read_file (lit "out/a.png") w1) = Ok [137; 80]
    /\ save_images (Some (lit "out"))
         [(lit "a.png", PyStr (lit "iVBO")); (lit "a.png", PyStr (lit "iVA="))]
         w1 = (Ok m, w1).
Proof.
  eexists _, _. split; [vm_compute; reflexivity|]. split; [vm_compute; reflexivity|].
  apply (saving_again_changes_nothing _ _ _ world_two_images).
  - intros name [= <-]. vm_compute. discriminate.
  - vm_compute. reflexivity.
Defined.

(** X8: without an output directory, [None] or the empty string alike, the
    save step creates no directory, writes each image at its bare file name
    and, when every write succeeds, returns the list it was given. *)
Theorem save_without_output_dir (gi : manifest) (w : world) :
  save_images (Some []) gi w = save_images None gi w
  /\ dirs (snd (save_images None gi w)) = dirs w
  /\ forall m w',
       save_images None gi w = (Ok m, w') ->
       m = gi
       /\ exists items,
            decoded_at w (fun filename => filename) gi items
            /\ files w' = write_all items (files w).
Proof.
  split; [reflexivity|].
  assert (Hid : forall l : manifest, List.map (fun it => (fst it, snd it)) l = l).
  { induction l as [|[a b] l IHl]; [reflexivity|]. cbn. now rewrite IHl. }
  rewrite save_images_fold.
  change (destination None) with (fun filename : str => filename).
  pose proof (save_fold_frame (fun f => f) gi w) as (D & _).
  destruct (save_fold _ gi w) as [[[]|e] w2] eqn:Hfold; cbn [snd] in *.
  - split; [exact D|]. intros m w' [= <- <-]. split; [apply Hid|].
    apply save_fold_ok_iff in Hfold as (items & Hdec & ->).
    exists items. now split.
  - split; [exact D | discriminate].
Qed.

(** *** A failed stage ends the run *)

Lemma stage_fails_outcome (stage : string) (reply : result response) (e : exn) :
  stage_fails stage reply e -> stage_outcome stage reply = Err e.
Proof.
  unfold stage_outcome. intros [-> | (resp & -> & Hnone & ->)]; [reflexivity|].
  now rewrite Hnone.
Qed.

Lemma generate_progressive_images_err
    (image_path dog_breed : str) (output_dir : option str) (w w1 : world) (e : exn) :
  stages_tree image_path dog_breed w = (Err e, w1) ->
  generate_progressive_images image_path dog_breed output_dir w = (Err e, w1).
Proof.
  intros H. unfold generate_progressive_images, bind.
  now rewrite run_stages_tree, H.
Qed.

(** X1: when the stage-1 call raises, or its response holds no item the
    comprehension keeps, the run raises that error and has issued the stage-1
    request only: no stage-2 or stage-3 request, no second attempt, no file
    written. *)
Theorem stage1_failure_ends_the_run
    (image_path dog_breed : str) (output_dir : option str) (w : world)
    (image_data : bytes) (e : exn) :
  fst (read_file image_path w) = Ok image_data ->
  stage_fails "1" (endpoint w (calls w ++ [request1 dog_breed image_data])) e ->
  generate_progressive_images image_path dog_breed output_dir w
  = (Err e, log_call w (request1 dog_breed image_data)).
Proof.
  intros Hread Hfail. apply stage_fails_outcome in Hfail.
  apply generate_progressive_images_err. unfold stages_tree.
  rewrite Hread. cbn [calls log_call]. now rewrite Hfail.
Qed.

Lemma stage1_failure_ends_the_run_witness :
  generate_progressive_images (lit "me.jpg") (lit "Pug") (Some (lit "out")) world_down
  = (Err connection_error, log_call world_down (request1 (lit "Pug") photo)).
Proof.
  apply (stage1_failure_ends_the_run (lit "me.jpg") (lit "Pug") (Some (lit "out"))
           world_down photo connection_error).
  - reflexivity.
  - left. reflexivity.
Defined.

(** X2: when stage 1 succeeded and the stage-2 call raises, or its response
    holds no item the comprehension keeps, the run raises that error and has
    issued the stage-1 and stage-2 requests only. *)
Theorem stage2_failure_ends_the_run
    (image_path dog_breed : str) (output_dir : option str) (w : world)
    (image_data : bytes) (resp1 : response) (p1 : pyval) (e : exn) :
  fst (read_file image_path w) = Ok image_data ->
  stage_outcome "1" (endpoint w (calls w ++ [request1 dog_breed image_data]))
  = Ok (resp1, p1) ->
  stage_fails "2"
    (endpoint w (calls w ++ [request1 dog_breed image_data;
                             request2 dog_breed resp1])) e ->
  generate_progressive_images image_path dog_breed output_dir w
  = (Err e, log_call (log_call w (request1 dog_breed image_data))
              (request2 dog_breed resp1)).
Proof.
  intros Hread H1 Hfail. apply stage_fails_outcome in Hfail.
  apply generate_progressive_images_err. unfold stages_tree.
  rewrite Hread. cbn [calls log_call]. rewrite H1.
  rewrite <- app_assoc. cbn [app]. now rewrite Hfail.
Qed.

Lemma stage2_failure_ends_the_run_witness :
  exists resp1,
    endpoint (world_down_after 1) [request1 (lit "Pug") photo] = Ok resp1
    /\ generate_progressive_images (lit "me.jpg") (lit "Pug") None (world_down_after 1)
       = (Err connection_error,
          log_call (log_call (world_down_after 1) (request1 (lit "Pug") photo))
            (request2 (lit "Pug") resp1)).
Proof.
  eexists. split; [reflexivity|].
  eapply (stage2_failure_ends_the_run (lit "me.jpg") (lit "Pug") None
            (world_down_after 1) photo).
  - reflexivity.
  - reflexivity.
  - left. reflexivity.
Defined.

(** X3: when stages 1 and 2 succeeded and the stage-3 call raises, or its
    response holds no item the comprehension keeps, the run raises that error
    after three requests, before anything is saved. *)
Theorem stage3_failure_ends_the_run
    (image_path dog_breed : str) (output_dir : option str) (w : world)
    (image_data : bytes) (resp1 resp2 : response) (p1 p2 : pyval) (e : exn) :
  fst (read_file image_path w) = Ok image_data ->
  stage_outcome "1" (endpoint w (calls w ++ [request1 dog_breed image_data]))
  = Ok (resp1, p1) ->
  stage_outcome "2"
    (endpoint w (calls w ++ [request1 dog_breed image_data;
                             request2 dog_breed resp1]))
  = Ok (resp2, p2) ->
  stage_fails "3"
    (endpoint w (calls w ++ [request1 dog_breed image_data;
                             request2 dog_breed resp1;
                             request3 dog_breed resp2])) e ->
  generate_progressive_images image_path dog_breed output_dir w
  = (Err e, log_call (log_call (log_call w (request1 dog_breed image_data))
                        (request2 dog_breed resp1))
              (request3 dog_breed resp2)).
Proof.
  intros Hread H1 H2 Hfail. apply stage_fails_outcome in Hfail.
  apply generate_progressive_images_err. unfold stages_tree.
  rewrite Hread. cbn [calls log_call]. rewrite H1.
  rewrite <- app_assoc. cbn [app]. rewrite H2.
  rewrite <- app_assoc. cbn [app]. now rewrite Hfail.
Qed.

Lemma stage3_failure_ends_the_run_witness :
  fst (generate_progressive_images (lit "me.jpg") (lit "Pug") None (world_down_after 2))
  = Err connection_error
  /\ List.length (calls (snd (generate_progressive_images (lit "me.jpg") (lit "Pug")
                           None (world_down_after 2)))) = 3%nat
  /\ files (snd (generate_progressive_images (lit "me.jpg") (lit "Pug")
                   None (world_down_after 2)))
     = files (world_down_after 2).
Proof.
  erewrite (stage3_failure_ends_the_run (lit "me.jpg") (lit "Pug") None
              (world_down_after 2) photo _ _ _ _ connection_error).
  - repeat split; reflexivity.
  - reflexivity.
  - reflexivity.
  - reflexivity.
  - left. reflexivity.
Defined.

(** ** The classifier *)

Lemma classify_body_fails (image_path : str) (w : world) (e : exn) :
  classify_failure image_path w e ->
  fst (classify_body image_path w) = Err e
  /\ (length (calls (snd (classify_body image_path w))) <= length (calls w) + 1)%nat.
Proof.
  unfold classify_body, bind, responses_create, ret.
  pose proof (read_file_world image_path w) as Hw.
  intros [Hread | (image_data & Hread & Hcall)];
    destruct (read_file image_path w) as [[data|e'] w1];
    cbn [fst snd] in Hread, Hw |- *; subst w1; try discriminate.
  - injection Hread as ->. split; [reflexivity | lia].
  - injection Hread as ->. rewrite Hcall. cbn [fst snd calls log_call].
    split; [reflexivity | rewrite length_app; cbn; lia].
Qed.

(** C9, as stated, fails for the stand-alone script's [analyze_dog_breed]:
    when the image cannot be read it returns the text of the error as a
    normal value. *)
Lemma script_analyze_returns_error_text :
  fst (AnalyzeDogBreedScript.analyze_dog_breed (lit "missing.jpg") world_two_images)
  = Ok (lit "Error: [Errno 2] No such file or directory: 'missing.jpg'").
Proof. vm_compute. reflexivity. Qed.

(** C9, amended: when the file read or the remote call of a classification
    raises [e], the pipeline's [analyze_dog_breed] (generate_transformation.py)
    raises [Exception("Error analyzing dog breed: " + str(e))], and the
    stand-alone script's [analyze_dog_breed] (analyze_dog_breed.py) returns
    the string ["Error: " + str(e)]; either way at most one request is
    issued. *)
Theorem classify_failure_is_wrapped (image_path : str) (w : world) (e : exn) :
  classify_failure image_path w e ->
  fst (analyze_dog_breed image_path w)
  = Err (Exception (lit "Error analyzing dog breed: " ++ str_of_exn e))
  /\ fst (AnalyzeDogBreedScript.analyze_dog_breed image_path w)
     = Ok (lit "Error: " ++ str_of_exn e)
  /\ (length (calls (snd (analyze_dog_breed image_path w)))
      <= length (calls w) + 1)%nat
  /\ (length (calls (snd (AnalyzeDogBreedScript.analyze_dog_breed image_path w)))
      <= length (calls w) + 1)%nat.
Proof.
  intros Hf. apply classify_body_fails in Hf as [Hres Hcalls].
  unfold analyze_dog_breed, AnalyzeDogBreedScript.analyze_dog_breed,
    try_except, raise, ret.
  destruct (classify_body image_path w) as [[text|e'] w1];
    cbn [fst snd] in *; [discriminate|].
  injection Hres as ->. repeat split; assumption.
Qed.

Lemma classify_failure_is_wrapped_witness :
  classify_failure (lit "me.jpg") world_down connection_error
  /\ fst (analyze_dog_breed (lit "me.jpg") world_down)
     = Err (Exception (lit "Error analyzing dog breed: Connection error."))
  /\ List.length (calls (snd (analyze_dog_breed (lit "me.jpg") world_down))) = 1%nat.
Proof.
  assert (Hf : classify_failure (lit "me.jpg") world_down connection_error).
  { right. exists photo. split; reflexivity. }
  split; [exact Hf|].
  destruct (classify_failure_is_wrapped _ _ _ Hf) as (Hres & _).
  split; [exact Hres | reflexivity].
Defined.

(** When nothing raises, both return the endpoint's text as it is. *)
Lemma analyze_dog_breed_returns_output_text (image_path : str) (w : world)
    (image_data : bytes) (resp : response) :
  fst (read_file image_path w) = Ok image_data ->
  endpoint w (calls w ++ [classification_request (b64encode image_data)]) = Ok resp ->
  analyze_dog_breed image_path w
  = (Ok (resp_output_text resp),
     log_call w (classification_request (b64encode image_data))).
Proof.
  intros Hread Hcall.
  unfold analyze_dog_breed, try_except, classify_body, bind, responses_create, ret.
  pose proof (read_file_world image_path w) as Hw.
  destruct (read_file image_path w) as [[data|e'] w1];
    cbn [fst snd] in Hread, Hw; subst w1; [|discriminate].
  injection Hread as ->. now rewrite Hcall.
Qed.
(** *** The command-line entry point *)

Lemma classify_body_cases (image_path : str) (w : world) :
  classify_body image_path w
  = match fst (read_file image_path w) with
    | Err e => (Err e, w)
    | Ok image_data =>
        let req := classification_request (b64encode image_data) in
        match endpoint w (calls w ++ [req]) with
        | Ok resp => (Ok (resp_output_text resp), log_call w req)
        | Err e => (Err e, log_call w req)
        end
    end.
Proof.
  unfold classify_body, bind, responses_create, ret.
  pose proof (read_file_world image_path w) as Hw.
  destruct (read_file image_path w) as [[data|e] w1]; cbn [fst snd] in *; subst w1;
    [|reflexivity].
  destruct (endpoint w _); reflexivity.
Qed.

(** [main] is the classifier, then the extractor, then the chain without an
    output directory. *)
Lemma main_cases `{UnicodeDB} (image_path : str) (w : world) :
  main image_path w
  = match analyze_dog_breed image_path w with
    | (Ok breed_description, w1) =>
        generate_progressive_images image_path
          (extract_reference breed_description) None w1
    | (Err e, w1) => (Err e, w1)
    end.
Proof.
  unfold main, bind, lift, try_except, raise.
  destruct (analyze_dog_breed image_path w) as [[text|e] w1]; [|reflexivity].
  rewrite extract_dog_breed_eq.
  destruct (generate_progressive_images _ _ None w1) as [[m|e] w2]; reflexivity.
Qed.

(** X9: when the classification fails, [main] raises the wrapped error
    without issuing any generation request and without touching a file: the
    log holds at most the classification request. *)
Theorem main_stops_when_classification_fails `{UnicodeDB}
    (image_path : str) (w : world) (e : exn) :
  classify_failure image_path w e ->
  exists w',
    main image_path w
    = (Err (Exception (lit "Error analyzing dog breed: " ++ str_of_exn e)), w')
    /\ files w' = files w /\ dirs w' = dirs w
    /\ (calls w' = calls w
        \/ exists image_data,
             calls w' = calls w ++ [classification_request (b64encode image_data)]).
Proof.
  intros Hfail. rewrite main_cases.
  unfold analyze_dog_breed, try_except, raise. rewrite classify_body_cases.
  destruct Hfail as [Hread | (image_data & Hread & Hcall)]; rewrite Hread.
  - exists w. repeat split. now left.
  - cbn zeta. rewrite Hcall. eexists. split; [reflexivity|].
    repeat split. right. now exists image_data.
Qed.

Lemma main_stops_when_classification_fails_witness :
  classify_failure (lit "me.jpg") world_down connection_error
  /\ exists w',
       @main ucd_basic (lit "me.jpg") world_down
       = (Err (Exception (lit "Error analyzing dog breed: Connection error.")), w')
       /\ List.length (calls w') = 1%nat.
Proof.
  assert (Hf : classify_failure (lit "me.jpg") world_down connection_error).
  { right. exists photo. split; reflexivity. }
  split; [exact Hf|].
  destruct (@main_stops_when_classification_fails ucd_basic _ _ _ Hf)
    as (w' & Hmain & _ & _ & Hcalls).
  exists w'. split; [exact Hmain|].
  assert (Hw' : w' = snd (@main ucd_basic (lit "me.jpg") world_down))
    by (now rewrite Hmain).
  rewrite Hw'. reflexivity.
Defined.
(** A normal return of [main], unfolded: what was read, what was asked,
    what was returned and what is on disk. *)
Lemma main_ok `{UnicodeDB}
    (image_path : str) (w w' : world) (m : manifest) :
  main image_path w = (Ok m, w') ->
  exists image_data resp0 resp1 resp2 p1 p2 p3 dog_breed,
    fst (read_file image_path w) = Ok image_data
    /\ endpoint w (calls w ++ [classification_request (b64encode image_data)])
       = Ok resp0
    /\ dog_breed = extract_reference (resp_output_text resp0)
    /\ dog_breed <> []
    /\ calls w' = calls w ++ [classification_request (b64encode image_data);
                              request1 dog_breed image_data;
                              request2 dog_breed resp1;
                              request3 dog_breed resp2]
    /\ m = [(lit "image1_transition.png", p1);
            (lit "image2_transition.png", p2);
            (lit "image3_final_dog.png", p3)]
    /\ List.Forall (fun it => exists data, b64decode (snd it) = Ok data
                                /\ fst (read_file (fst it) w') = Ok data) m.
Proof.
  rewrite main_cases. unfold analyze_dog_breed, try_except, raise.
  rewrite classify_body_cases.
  destruct (fst (read_file image_path w)) as [image_data|e] eqn:Hread;
    [|discriminate].
  cbn zeta.
  destruct (endpoint w _) as [resp0|e] eqn:Hcall; [|discriminate].
  set (w1 := log_call w (classification_request (b64encode image_data))).
  set (dog_breed := extract_reference (resp_output_text resp0)).
  intros Hrun. pose proof (run_manifest_on_disk _ _ _ _ _ _ Hrun) as Hdisk.
  pose proof (generate_progressive_images_calls image_path dog_breed None w1) as Hcalls.
  rewrite Hrun in Hcalls. cbn [snd] in Hcalls.
  unfold generate_progressive_images, bind in Hrun.
  destruct (run_stages image_path dog_breed w1) as [[gi|e] w2] eqn:Hstages;
    [|discriminate].
  apply save_images_ok in Hrun. cbn [snd] in Hcalls.
  apply run_stages_ok in Hstages
    as (image_data' & resp1 & resp2 & resp3 & p1 & p2 & p3
        & Hread' & _ & _ & _ & -> & Hcalls2 & _).
  unfold w1 in Hread'. rewrite read_file_log_call, Hread in Hread'.
  injection Hread' as <-.
  exists image_data, resp0, resp1, resp2, p1, p2, p3, dog_breed.
  split; [reflexivity|]. split; [exact Hcall|]. split; [reflexivity|].
  split; [apply extract_reference_nonempty|].
  split; [rewrite Hcalls, Hcalls2; unfold w1; cbn [calls log_call];
          now rewrite <- app_assoc|].
  split; [exact Hrun | exact Hdisk].
Qed.



(** X11: in a run of [main] that returns normally on an image file holding
    bytes, the classification request and the stage-1 request each attach
    one image, the data URI ["data:image/jpeg;base64,"] followed by text
    that base64-decodes to the content of the file exactly; the stage-2 and
    stage-3 requests attach no image. *)
Theorem main_sends_the_image_twice_unchanged `{UnicodeDB}
    (image_path : str) (image_data : bytes) (w w' : world) (m : manifest) :
  main image_path w = (Ok m, w') ->
  fst (read_file image_path w) = Ok image_data ->
  is_bytes image_data ->
  exists encoded r0 r1 r2 r3,
    calls w' = calls w ++ [r0; r1; r2; r3]
    /\ attached_images r0 = [lit "data:image/jpeg;base64," ++ encoded]
    /\ attached_images r1 = [lit "data:image/jpeg;base64," ++ encoded]
    /\ attached_images r2 = []
    /\ attached_images r3 = []
    /\ b64decode (PyStr encoded) = Ok image_data.
Proof.
  intros Hmain Hread Hbytes.
  apply main_ok in Hmain
    as (image_data' & resp0 & resp1 & resp2 & p1 & p2 & p3 & dog_breed
        & Hread' & _ & _ & _ & Hcalls & _).
  rewrite Hread in Hread'. injection Hread' as <-.
  exists (b64encode image_data), (classification_request (b64encode image_data)),
    (request1 dog_breed image_data), (request2 dog_breed resp1),
    (request3 dog_breed resp2).
  split; [exact Hcalls|]. repeat split. now apply b64decode_b64encode.
Qed.

Lemma main_sends_the_image_twice_unchanged_witness :
  exists encoded r0 r1 r2 r3,
    calls (snd (@main ucd_basic (lit "me.jpg") world_two_images))
    = calls world_two_images ++ [r0; r1; r2; r3]
    /\ attached_images r0 = [lit "data:image/jpeg;base64," ++ encoded]
    /\ attached_images r1 = [lit "data:image/jpeg;base64," ++ encoded]
    /\ attached_images r2 = []
    /\ attached_images r3 = []
    /\ b64decode (PyStr encoded) = Ok photo.
Proof.
  assert (Hrun : @main ucd_basic (lit "me.jpg") world_two_images
    = (Ok [(lit "image1_transition.png", PyStr (lit "AgE="));
           (lit "image2_transition.png", PyStr (lit "AwE="));
           (lit "image3_final_dog.png", PyStr (lit "BAE="))],
       snd (@main ucd_basic (lit "me.jpg") world_two_images)))
    by (vm_compute; reflexivity).
  apply (@main_sends_the_image_twice_unchanged ucd_basic (lit "me.jpg") photo
           world_two_images _ _ Hrun).
  - reflexivity.
  - repeat constructor.
Defined.
(** *** The two classifiers side by side *)

(** X13: the stand-alone script's [analyze_dog_breed] never raises.  It
    returns what the pipeline's [analyze_dog_breed] returns when that one
    returns, and the text ["Error: " + str(e)] when that one raises
    [Exception("Error analyzing dog breed: " + str(e))]; both leave the same
    world, with every file and directory untouched and at most one request
    added to the log. *)
Theorem script_analyze_never_raises (image_path : str) (w : world) :
  exists text,
    fst (AnalyzeDogBreedScript.analyze_dog_breed image_path w) = Ok text
    /\ (fst (analyze_dog_breed image_path w) = Ok text
        \/ exists e,
             text = lit "Error: " ++ str_of_exn e
             /\ fst (analyze_dog_breed image_path w)
                = Err (Exception (lit "Error analyzing dog breed: " ++ str_of_exn e)))
    /\ snd (AnalyzeDogBreedScript.analyze_dog_breed image_path w)
       = snd (analyze_dog_breed image_path w)
    /\ files (snd (analyze_dog_breed image_path w)) = files w
    /\ dirs (snd (analyze_dog_breed image_path w)) = dirs w
    /\ (calls (snd (analyze_dog_breed image_path w)) = calls w
        \/ exists image_data,
             fst (read_file image_path w) = Ok image_data
             /\ calls (snd (analyze_dog_breed image_path w))
                = calls w ++ [classification_request (b64encode image_data)]).
Proof.
  unfold AnalyzeDogBreedScript.analyze_dog_breed, analyze_dog_breed,
    try_except, raise, ret.
  rewrite classify_body_cases.
  destruct (fst (read_file image_path w)) as [image_data|e] eqn:Hread.
  - cbn zeta. destruct (endpoint w _) as [resp|e]; cbn [fst snd].
    + exists (resp_output_text resp). repeat split; [now left|].
      right. now exists image_data.
    + exists (lit "Error: " ++ str_of_exn e). repeat split.
      * right. now exists e.
      * right. now exists image_data.
  - cbn [fst snd]. exists (lit "Error: " ++ str_of_exn e). repeat split.
    + right. now exists e.
    + now left.
Qed.

(** ** Serving files *)

Section ServingFacts.
Context `{DigitDB}.

(** Round trip: joining what was split gives the string back. *)
Lemma join_split_on_sep (s cur : str) :
  join_sep (split_on_sep cur s) = rev cur ++ s.
Proof.
  revert cur. induction s as [|c s IH]; intros cur; cbn [split_on_sep].
  - cbn. now rewrite app_nil_r.
  - destruct (N.eqb_spec c sep) as [->|Hc].
    + pose proof (split_on_sep_nonempty s []) as Hne.
      cbn [join_sep]. destruct (split_on_sep [] s) as [|p l] eqn:E; [contradiction|].
      rewrite <- E, IH. reflexivity.
    + rewrite IH. cbn [rev]. now rewrite <- app_assoc.
Qed.

Lemma join_split_sep (s : str) : join_sep (split_sep s) = s.
Proof. apply (join_split_on_sep s []). Qed.

(** The separator is not a digit. *)
Lemma isdigit_no_sep (first : str) : isdigit first = true -> no_sep first = true.
Proof.
  unfold isdigit, no_sep. intros Hd. apply andb_prop in Hd as [_ Hd].
  rewrite forallb_forall in Hd |- *. intros c Hc. specialize (Hd c Hc).
  apply negb_true_iff. apply N.eqb_neq. intros ->.
  rewrite ascii_isdigit in Hd by (unfold sep; lia). discriminate.
Qed.

Lemma split_sep_cons (first rest : str) :
  no_sep first = true ->
  split_sep (first ++ sep :: rest) = first :: split_sep rest.
Proof. intros Hf. unfold split_sep. now rewrite split_on_sep_run_then_sep. Qed.

(** The first segment, and the rest, of what [split] returns. *)
Lemma split_sep_head (s : str) :
  exists rest, split_sep s = up_to_sep s :: rest
               /\ (no_sep s = true -> rest = [])
               /\ (no_sep s = false ->
                   rest <> [] /\ join_sep rest = after_sep s
                   /\ s = up_to_sep s ++ sep :: after_sep s).
Proof.
  unfold split_sep.
  assert (Hgen : forall cur,
    exists rest, split_on_sep cur s = (rev cur ++ up_to_sep s) :: rest
                 /\ (no_sep s = true -> rest = [])
                 /\ (no_sep s = false ->
                     rest <> [] /\ join_sep rest = after_sep s
                     /\ s = up_to_sep s ++ sep :: after_sep s)).
  { induction s as [|c s IH]; intros cur; cbn [split_on_sep up_to_sep after_sep no_sep forallb].
    - exists []. rewrite app_nil_r. repeat split; try discriminate.
    - destruct (N.eqb_spec c sep) as [->|Hc]; cbn [negb andb].
      + exists (split_on_sep [] s). rewrite app_nil_r.
        split; [reflexivity|]. split; [discriminate|]. intros _.
        split; [apply split_on_sep_nonempty|].
        split; [apply (join_split_on_sep s []) | reflexivity].
      + destruct (IH (c :: cur)) as (rest & E & Hnone & Hsome).
        exists rest. cbn [rev] in E. rewrite <- app_assoc in E.
        split; [exact E|]. split; [exact Hnone|].
        intros Hs. destruct (Hsome Hs) as (H1 & H2 & H3).
        split; [exact H1|]. split; [exact H2|]. cbn [app]. now f_equal. }
  apply (Hgen []).
Qed.

(** [serve_from] as a decision on the first segment. *)
Lemma serve_from_cases (folder : str) (current_user_id : Z) (filename : str) :
  serve_from folder current_user_id filename
  = if no_sep filename || negb (isdigit (up_to_sep filename))
    then Ok invalid_image_path
    else match py_int (up_to_sep filename) with
         | Err e => Err e
         | Ok user_id =>
             if (user_id =? current_user_id)%Z
             then Ok (SendFromDirectory
                        (os_path_join folder (up_to_sep filename))
                        (after_sep filename))
             else Ok access_denied
         end.
Proof.
  unfold serve_from.
  destruct (split_sep_head filename) as (rest & -> & Hnone & Hsome).
  destruct (no_sep filename) eqn:Hs.
  - rewrite (Hnone eq_refl). reflexivity.
  - destruct (Hsome eq_refl) as (Hne & Hjoin & _).
    destruct rest as [|r rest]; [contradiction|].
    cbn [length Nat.leb py_index nth_error rbind orb drop].
    destruct (isdigit (up_to_sep filename)); cbn [negb]; [|reflexivity].
    destruct (py_int (up_to_sep filename)) as [user_id|e]; cbn [rbind]; [|reflexivity].
    destruct (user_id =? current_user_id)%Z; cbn [negb]; [|reflexivity].
    now rewrite Hjoin.
Qed.
End ServingFacts.

Section ServingTheorems.
Context `{DigitDB}.

Lemma after_sep_app (first rest : str) :
  no_sep first = true -> after_sep (first ++ sep :: rest) = rest.
Proof.
  induction first as [|c first IH]; cbn.
  - reflexivity.
  - intros Hs. apply andb_prop in Hs as [Hc Hs].
    apply negb_true_iff in Hc. rewrite Hc. now apply IH.
Qed.

Lemma no_sep_app_sep (first rest : str) : no_sep (first ++ sep :: rest) = false.
Proof.
  unfold no_sep. rewrite forallb_app. cbn. now rewrite andb_false_r.
Qed.
End ServingTheorems.

(** X14: [serve_image] and [serve_upload] hand a file to
    [send_from_directory] exactly when the requested path is
    [first + "/" + path] with [first] a string of digits that [int] converts
    to the current user's id; the directory is then the folder joined with
    [first], and the path is the rest of the request, unchanged. *)
Theorem served_exactly_from_own_folder `{DigitDB}
    (folder : str) (current_user_id : Z) (filename directory path : str) :
  serve_from folder current_user_id filename
  = Ok (SendFromDirectory directory path)
  <-> exists first,
        filename = first ++ sep :: path
        /\ isdigit first = true
        /\ py_int first = Ok current_user_id
        /\ directory = os_path_join folder first.
Proof.
  rewrite serve_from_cases. split.
  - destruct (split_sep_head filename) as (rest & _ & _ & Hsome).
    destruct (no_sep filename) eqn:Hs; [discriminate|].
    destruct (Hsome eq_refl) as (_ & _ & Hname).
    destruct (isdigit (up_to_sep filename)) eqn:Hd; [|discriminate].
    destruct (py_int (up_to_sep filename)) as [user_id|e] eqn:Hint; [|discriminate].
    destruct (Z.eqb_spec user_id current_user_id) as [->|]; [|discriminate].
    cbn [negb orb]. intros [= <- <-].
    exists (up_to_sep filename). repeat split; assumption.
  - intros (first & -> & Hd & Hint & ->).
    pose proof (isdigit_no_sep first Hd) as Hs.
    rewrite no_sep_app_sep, up_to_sep_app, after_sep_app by assumption.
    rewrite Hd, Hint, Z.eqb_refl. reflexivity.
Qed.

(** X15: a path whose first segment is a string of digits that [int]
    converts to another id than the current user's is answered with
    "Access denied" and a redirect to the dashboard, whatever follows. *)
Theorem other_ids_are_denied `{DigitDB}
    (folder : str) (current_user_id user_id : Z) (first rest : str) :
  isdigit first = true ->
  py_int first = Ok user_id ->
  user_id <> current_user_id ->
  serve_from folder current_user_id (first ++ sep :: rest) = Ok access_denied.
Proof.
  intros Hd Hint Hne. rewrite serve_from_cases.
  pose proof (isdigit_no_sep first Hd) as Hs.
  rewrite no_sep_app_sep, up_to_sep_app by assumption.
  rewrite Hd, Hint. cbn [negb orb].
  destruct (Z.eqb_spec user_id current_user_id); [contradiction | reflexivity].
Qed.

Lemma other_ids_are_denied_witness :
  @serve_image digits_ascii 7 (lit "8/image1_transition.png") = Ok access_denied
  /\ @serve_upload digits_ascii 7 (lit "0008/../7/a.jpg") = Ok access_denied.
Proof.
  split.
  - apply (@other_ids_are_denied digits_ascii (lit "static/generated_images") 7 8 (lit "8") (lit "image1_transition.png"));
      [reflexivity | reflexivity | discriminate].
  - apply (@other_ids_are_denied digits_ascii (lit "uploads") 7 8 (lit "0008") (lit "../7/a.jpg"));
      [reflexivity | reflexivity | discriminate].
Defined.

(** X16: the view, up to and with its last call, answers "Invalid image
    path" exactly when the requested path has no slash or its first segment
    is not a string of digits; and it raises [e] exactly when the first
    segment is a string of digits and either [int] refuses it with [e], or
    it is the current user's id and [send_from_directory], called on the
    user's folder and the rest of the path, raises [e] (its [NotFound], for
    a file that is not there). *)
Theorem invalid_paths_and_errors `{DigitDB} `{FlaskLib}
    (folder : str) (current_user_id : Z) (filename : str) (w : world) :
  (respond (serve_from folder current_user_id filename) w
   = Ok (Redirected (lit "Invalid image path") (lit "error") (lit "dashboard"))
   <-> no_sep filename = true \/ isdigit (up_to_sep filename) = false)
  /\ forall e,
       respond (serve_from folder current_user_id filename) w = Err e
       <-> no_sep filename = false
           /\ isdigit (up_to_sep filename) = true
           /\ (py_int (up_to_sep filename) = Err e
               \/ (py_int (up_to_sep filename) = Ok current_user_id
                   /\ send_from_directory
                        (os_path_join folder (up_to_sep filename))
                        (after_sep filename) w = Err e)).
Proof.
  rewrite serve_from_cases.
  destruct (no_sep filename); cbn [orb].
  { split; [split; auto|]. intros e. split; [discriminate | intros [? _]; discriminate]. }
  destruct (isdigit (up_to_sep filename)); cbn [negb].
  2:{ split; [split; auto|]. intros e.
      split; [discriminate | intros (_ & ? & _); discriminate]. }
  destruct (py_int (up_to_sep filename)) as [user_id|e0].
  - destruct (Z.eqb_spec user_id current_user_id) as [->|Hne]; cbn [negb respond].
    + destruct (send_from_directory _ _ w) as [r|e0].
      * split; [split; [discriminate | intros [?|?]; discriminate]|].
        intros e. split; [discriminate|].
        intros (_ & _ & [?|[_ ?]]); discriminate.
      * split; [split; [discriminate | intros [?|?]; discriminate]|].
        intros e. split.
        -- intros [= ->]. repeat split. right. now split.
        -- intros (_ & _ & [?|[_ [= ->]]]); [discriminate | reflexivity].
    + split; [split; [discriminate | intros [?|?]; discriminate]|].
      intros e. split; [discriminate|].
      intros (_ & _ & [?|[[= ->] _]]); [discriminate | contradiction].
  - cbn [respond]. split.
    + split; [discriminate | intros [?|?]; discriminate].
    + intros e. split.
      * intros [= ->]. repeat split. now left.
      * intros (_ & _ & [[= ->]|[? _]]); [reflexivity | discriminate].
Qed.

Section AsciiDigits.
Context `{DigitDB}.

Lemma decimal_values_ascii (s : str) :
  forallb (in_range 48 57) s = true ->
  decimal_values s = Some (List.map (fun c => c - 48) s).
Proof.
  induction s as [|c s IH]; cbn; [reflexivity|].
  intros Hs. apply andb_prop in Hs as [Hc Hs].
  now rewrite (ascii_decimal c Hc), IH.
Qed.

Lemma isdigit_ascii (s : str) :
  s <> [] -> forallb (in_range 48 57) s = true -> isdigit s = true.
Proof.
  intros Hne Hs. unfold isdigit. destruct s as [|c s]; [contradiction|].
  cbn [py_not negb andb]. rewrite forallb_forall in Hs |- *. intros x Hx.
  specialize (Hs x Hx). rewrite ascii_isdigit; [exact Hs|].
  unfold in_range in Hs. apply andb_prop in Hs as [_ Hs].
  apply N.leb_le in Hs. lia.
Qed.

Lemma foldl_digits (s : str) (v : N) :
  foldl (fun v d => 10 * v + d) v (List.map (fun c => c - 48) s)
  = foldl (fun v c => 10 * v + (c - 48)) v s.
Proof. revert v. induction s as [|c s IH]; intros v; cbn; [reflexivity | apply IH]. Qed.

Lemma py_int_ascii (s : str) :
  s <> [] -> forallb (in_range 48 57) s = true ->
  (int_max_str_digits = 0 \/ length s <= int_max_str_digits)%nat ->
  py_int s = Ok (Z.of_N (ascii_number s)).
Proof.
  intros Hne Hs Hlim. unfold py_int, ascii_number.
  rewrite decimal_values_ascii by assumption.
  destruct s as [|c s]; [contradiction|]. cbn [py_not].
  rewrite length_map, foldl_digits.
  destruct Hlim as [->|Hlim]; [reflexivity|].
  destruct (int_max_str_digits =? 0)%nat; [reflexivity|]. cbn [negb andb].
  destruct (Nat.ltb_spec int_max_str_digits (length (c :: s))); [lia | reflexivity].
Qed.
End AsciiDigits.

(** The view on a path whose first segment is made of ASCII digits. *)
Lemma serve_from_ascii `{DigitDB}
    (folder : str) (current_user_id : Z) (first rest : str) :
  first <> [] ->
  forallb (in_range 48 57) first = true ->
  (int_max_str_digits = 0 \/ length first <= int_max_str_digits)%nat ->
  serve_from folder current_user_id (first ++ sep :: rest)
  = if (Z.of_N (ascii_number first) =? current_user_id)%Z
    then Ok (SendFromDirectory (os_path_join folder first) rest)
    else Ok access_denied.
Proof.
  intros Hne Hs Hlim. rewrite serve_from_cases.
  pose proof (isdigit_ascii first Hne Hs) as Hd.
  pose proof (isdigit_no_sep first Hd) as Hsep.
  rewrite no_sep_app_sep, up_to_sep_app, after_sep_app by assumption.
  rewrite Hd, py_int_ascii by assumption. reflexivity.
Qed.

(** X17: on a requested path whose first segment is a non-empty string of
    ASCII digits within the interpreter's limit, the view itself raises
    nothing: when the digits denote the current user's id (leading zeros
    included) its outcome is that of [send_from_directory] on the folder
    joined with that segment and the rest of the path, the file or the
    error, and otherwise the request is denied. *)
Theorem ascii_ids_are_served_or_denied `{DigitDB} `{FlaskLib}
    (folder : str) (current_user_id : Z) (first rest : str) (w : world) :
  first <> [] ->
  forallb (in_range 48 57) first = true ->
  (int_max_str_digits = 0 \/ length first <= int_max_str_digits)%nat ->
  respond (serve_from folder current_user_id (first ++ sep :: rest)) w
  = if (Z.of_N (ascii_number first) =? current_user_id)%Z
    then match send_from_directory (os_path_join folder first) rest w with
         | Ok r => Ok (Sent r)
         | Err e => Err e
         end
    else Ok (Redirected (lit "Access denied") (lit "error") (lit "dashboard")).
Proof.
  intros Hne Hs Hlim. rewrite serve_from_ascii by assumption.
  destruct (_ =? _)%Z; reflexivity.
Qed.

Lemma ascii_ids_are_served_or_denied_witness :
  let w := snd (generate_progressive_images (lit "me.jpg") (lit "Pug")
                  (Some (lit "static/generated_images/7")) world_two_images) in
  @serve_image_response digits_ascii flask_plain 7 (lit "7/image1_transition.png") w
  = Ok (@Sent flask_plain [1; 1])
  /\ @serve_image_response digits_ascii flask_plain 7 (lit "7/missing.png") w
     = Err NotFound
  /\ @serve_upload_response digits_ascii flask_plain 7 (lit "008/a/b.jpg") w
     = Ok (@Redirected flask_plain (lit "Access denied") (lit "error") (lit "dashboard")).
Proof.
  cbn zeta. unfold serve_image_response, serve_upload_response, serve_image, serve_upload.
  split; [|split].
  - rewrite (@ascii_ids_are_served_or_denied digits_ascii flask_plain
               (lit "static/generated_images") 7 (lit "7")
               (lit "image1_transition.png"));
      [vm_compute; reflexivity | discriminate | reflexivity | right; cbn; lia].
  - rewrite (@ascii_ids_are_served_or_denied digits_ascii flask_plain
               (lit "static/generated_images") 7 (lit "7") (lit "missing.png"));
      [vm_compute; reflexivity | discriminate | reflexivity | right; cbn; lia].
  - rewrite (@ascii_ids_are_served_or_denied digits_ascii flask_plain
               (lit "uploads") 7 (lit "008") (lit "a/b.jpg"));
      [vm_compute; reflexivity | discriminate | reflexivity | right; cbn; lia].
Defined.

(** ** The upload view *)

(** *** Decimal text of a number *)

Lemma decimal_go_digits (fuel : nat) (n : N) (acc : str) :
  forallb (in_range 48 57) acc = true ->
  forallb (in_range 48 57) (decimal_go fuel n acc) = true.
Proof.
  revert n acc. induction fuel as [|fuel IH]; intros n acc Hacc; cbn [decimal_go].
  - exact Hacc.
  - assert (Hd : forallb (in_range 48 57) ((48 + n mod 10) :: acc) = true).
    { cbn [forallb]. rewrite Hacc, andb_true_r. unfold in_range.
      apply andb_true_intro. split; [apply N.leb_le | apply N.leb_le]; sextets. }
    destruct (n <? 10); [exact Hd | now apply IH].
Qed.

Lemma decimal_go_nonempty (fuel : nat) (n : N) (acc : str) :
  acc <> [] \/ fuel <> O -> decimal_go fuel n acc <> [].
Proof.
  revert n acc. induction fuel as [|fuel IH]; intros n acc Hne; cbn [decimal_go].
  - destruct Hne as [Hne|Hne]; [exact Hne | contradiction].
  - destruct (n <? 10); [discriminate|]. apply IH. left. discriminate.
Qed.

(** Reading the digits back gives the number. *)
Lemma decimal_go_number (fuel : nat) (n : N) (acc : str) :
  n < 2 ^ N.of_nat fuel ->
  foldl (fun v c => 10 * v + (c - 48)) 0 (decimal_go fuel n acc)
  = foldl (fun v c => 10 * v + (c - 48)) n acc.
Proof.
  revert n acc. induction fuel as [|fuel IH]; intros n acc Hn; cbn [decimal_go].
  - cbn in Hn. assert (n = 0) as -> by lia. reflexivity.
  - rewrite Nat2N.inj_succ, N.pow_succ_r' in Hn.
    destruct (N.ltb_spec n 10) as [Hlt|Hge].
    + cbn [foldl]. f_equal. sextets.
    + rewrite IH by sextets. cbn [foldl]. f_equal. sextets.
Qed.

Lemma size_nat_bound (p : positive) : N.pos p < 2 ^ N.of_nat (Pos.size_nat p).
Proof.
  induction p as [p IH|p IH|]; cbn [Pos.size_nat];
    rewrite ?Nat2N.inj_succ, ?N.pow_succ_r'; lia.
Qed.

Lemma str_of_N_number (n : N) : ascii_number (str_of_N n) = n.
Proof.
  unfold ascii_number, str_of_N. rewrite decimal_go_number; [reflexivity|].
  rewrite Nat2N.inj_succ, N.pow_succ_r'.
  destruct n as [|p]; [reflexivity|]. cbn [N.size_nat].
  pose proof (size_nat_bound p). lia.
Qed.

Lemma str_of_N_digits (n : N) : forallb (in_range 48 57) (str_of_N n) = true.
Proof. now apply decimal_go_digits. Qed.

Lemma str_of_N_nonempty (n : N) : str_of_N n <> [].
Proof. apply decimal_go_nonempty. right. discriminate. Qed.






Lemma str_of_Z_nonempty (z : Z) : str_of_Z z <> [].
Proof. destruct z; cbn [str_of_Z]; try apply str_of_N_nonempty. discriminate. Qed.


(** *** Plain names and plain paths of the view *)










(** *** The frame of the upload view *)















Section UploadViewFacts.
Context `{UnicodeDB} `{WebLib}.







End UploadViewFacts.

(** *** Reading a file again *)






Section UploadViewRuns.
Context `{UnicodeDB} `{WebLib}.





End UploadViewRuns.

(** *** The upload view *)







(** X21: the paths the upload view stores are the ones the two serving
    views give out to their owner: for a user id that is not negative and
    whose decimal text is within the interpreter's limit, the path
    ["<id>/<name>"] is served from the folder of that user (the directory
    the upload view writes to) to that user, and denied to every other. *)
Theorem stored_paths_are_served_to_their_owner `{DigitDB}
    (owner_id current_user_id : Z) (name : str) :
  (0 <= owner_id)%Z ->
  (int_max_str_digits = 0 \/ length (str_of_Z owner_id) <= int_max_str_digits)%nat ->
  serve_image current_user_id (str_of_Z owner_id ++ sep :: name)
  = (if (owner_id =? current_user_id)%Z
     then Ok (SendFromDirectory (images_dir owner_id) name)
     else Ok access_denied)
  /\ serve_upload current_user_id (str_of_Z owner_id ++ sep :: name)
     = (if (owner_id =? current_user_id)%Z
        then Ok (SendFromDirectory (upload_dir owner_id) name)
        else Ok access_denied).
Proof.
  intros Hpos Hlim.
  assert (Hid : str_of_Z owner_id = str_of_N (Z.to_N owner_id))
    by (destruct owner_id; [reflexivity | reflexivity | lia]).
  assert (Hnum : Z.of_N (ascii_number (str_of_Z owner_id)) = owner_id)
    by (rewrite Hid, str_of_N_number; lia).
  assert (Hserve : forall folder,
            serve_from folder current_user_id (str_of_Z owner_id ++ sep :: name)
            = if (owner_id =? current_user_id)%Z
              then Ok (SendFromDirectory (os_path_join folder (str_of_Z owner_id)) name)
              else Ok access_denied).
  { intros folder. rewrite serve_from_ascii, Hnum; [reflexivity | | | exact Hlim].
    - apply str_of_Z_nonempty.
    - rewrite Hid. apply str_of_N_digits. }
  split; apply Hserve.
Qed.

Lemma stored_paths_are_served_to_their_owner_witness :
  @serve_image digits_ascii 12 (lit "12/image2_transition.png")
  = Ok (SendFromDirectory (lit "static/generated_images/12") (lit "image2_transition.png"))
  /\ @serve_upload digits_ascii 7 (lit "12/20240131_093000_me.png") = Ok access_denied.
Proof.
  split.
  - apply (@stored_paths_are_served_to_their_owner digits_ascii 12 12
             (lit "image2_transition.png")); [lia | right; vm_compute; lia].
  - apply (@stored_paths_are_served_to_their_owner digits_ascii 12 7
             (lit "20240131_093000_me.png")); [lia | right; vm_compute; lia].
Defined.

(** ** Accounts *)

Lemma first_by_username_none (name : str) (users : list user) :
  first_by_username name users = None <-> name ∉ List.map username users.
Proof.
  unfold first_by_username. induction users as [|u users IH]; cbn [find List.map].
  - split; [intros _; apply not_elem_of_nil | reflexivity].
  - rewrite not_elem_of_cons. destruct (bool_decide_reflect (username u = name)) as [E|E].
    + split; [discriminate | intros [Hne _]; now contradiction Hne].
    + rewrite IH. split; [intros Hn; split; [congruence | exact Hn] | now intros [_ Hn]].
Qed.

Lemma first_by_username_some (name : str) (users : list user) (u : user) :
  first_by_username name users = Some u -> u ∈ users /\ username u = name.
Proof.
  unfold first_by_username. intros Hfind. apply find_some in Hfind as [Hin Hname].
  split; [now apply list_elem_of_In | now apply bool_decide_eq_true in Hname].
Qed.

(** The row appended last is the first of its name when no earlier row
    has that name. *)
Lemma first_by_username_snoc (users : list user) (u : user) :
  first_by_username (username u) users = None ->
  first_by_username (username u) (users ++ [u]) = Some u.
Proof.
  unfold first_by_username. induction users as [|v users IH]; cbn [find app].
  - intros _. now rewrite bool_decide_eq_true_2.
  - destruct (bool_decide (username v = username u)); [discriminate | exact IH].
Qed.

Section AccountFacts.
Context `{UnicodeDB} `{PasswordLib}.

(** [register], branch by branch, on a request of a client that is not
    authenticated. *)
Lemma register_post (form : gmap str str) (salt : str) (users users' : list user)
    (r : flask_reply) :
  register false (lit "POST") form salt users = (r, users') ->
  body r = RedirectUrlFor (lit "login") ->
  let name := strip (form_get form (lit "username")) in
  let password := form_get form (lit "password") in
  name <> [] /\ password <> []
  /\ form_get form (lit "confirm_password") = password
  /\ (6 <= length password)%nat
  /\ first_by_username name users = None
  /\ users' = users ++ [{| username := name;
                           password_hash := generate_password_hash salt password |}]
  /\ r = {| flashed := Some (lit "Registration successful! Please login.",
                             lit "success");
            body := RedirectUrlFor (lit "login") |}.
Proof.
  cbn zeta. unfold register.
  destruct (decide (lit "POST" = lit "POST")) as [_|Hno]; [|contradiction].
  destruct (strip _) as [|c name] eqn:Hname; cbn [py_not orb];
    [intros [= <- _] Hb; discriminate|].
  destruct (form_get form (lit "password")) as [|d password] eqn:Hpw; cbn [py_not];
    [intros [= <- _] Hb; discriminate|].
  destruct (bool_decide_reflect (d :: password <> form_get form (lit "confirm_password")))
    as [Hc|Hc]; [intros [= <- _] Hb; discriminate|].
  destruct (Nat.ltb_spec (length (d :: password)) 6) as [Hl|Hl];
    [intros [= <- _] Hb; discriminate|].
  destruct (first_by_username (c :: name) users) as [u|] eqn:Hfind;
    [intros [= <- _] Hb; discriminate|].
  intros [= <- <-] _.
  repeat split; try discriminate; try assumption.
  destruct (decide (form_get form (lit "confirm_password") = d :: password)) as [E|E];
    [exact E | exfalso; apply Hc; congruence].
Qed.
End AccountFacts.

(** X22: registration keeps the user names of the table pairwise distinct
    and never changes or removes a row; when it adds one, this is the last
    row, its name is the submitted name stripped, which is not empty and was
    not in the table, the password has at least six characters and equals its
    confirmation, and the stored hash checks against it. *)
Theorem register_keeps_usernames_unique `{UnicodeDB} `{PasswordLib}
    (is_authenticated : bool) (method : str) (form : gmap str str) (salt : str)
    (users : list user) :
  NoDup (List.map username users) ->
  let users' := snd (register is_authenticated method form salt users) in
  let password := form_get form (lit "password") in
  NoDup (List.map username users')
  /\ (users' = users
      \/ exists u,
           users' = users ++ [u]
           /\ username u = strip (form_get form (lit "username"))
           /\ username u <> []
           /\ (username u ∉ List.map username users)
           /\ (6 <= length password)%nat
           /\ form_get form (lit "confirm_password") = password
           /\ check_password_hash (password_hash u) password = true).
Proof.
  intros Hnd. cbn zeta. unfold register.
  destruct is_authenticated; [split; [exact Hnd | now left]|].
  destruct (decide (method = lit "POST")) as [_|_]; [|split; [exact Hnd | now left]].
  destruct (strip _) as [|c name] eqn:Hname; cbn [py_not orb];
    [split; [exact Hnd | now left]|].
  destruct (form_get form (lit "password")) as [|d password] eqn:Hpw; cbn [py_not];
    [split; [exact Hnd | now left]|].
  destruct (bool_decide_reflect (d :: password <> form_get form (lit "confirm_password")))
    as [Hc|Hc]; [split; [exact Hnd | now left]|].
  destruct (Nat.ltb_spec (length (d :: password)) 6) as [Hl|Hl];
    [split; [exact Hnd | now left]|].
  destruct (first_by_username (c :: name) users) as [u|] eqn:Hfind;
    [split; [exact Hnd | now left]|].
  cbn [snd]. apply first_by_username_none in Hfind. split.
  - rewrite map_app. apply NoDup_app. split; [exact Hnd|]. split.
    + intros x Hx Hin. cbn in Hin. apply list_elem_of_singleton in Hin. congruence.
    + apply NoDup_singleton.
  - right. eexists. split; [reflexivity|]. cbn [username password_hash].
    repeat split; try discriminate; try assumption.
    + destruct (decide (form_get form (lit "confirm_password") = d :: password))
        as [E|E]; [exact E | exfalso; apply Hc; congruence].
    + apply check_generated.
Qed.

Lemma register_keeps_usernames_unique_witness :
  let users := [{| username := lit "ada"; password_hash := lit "x$secret1" |}] in
  NoDup (List.map username
           (snd (@register ucd_basic password_plain false (lit "POST")
                   (account_form (lit " bob ") (lit "hunter22")) (lit "s") users)))
  /\ snd (@register ucd_basic password_plain false (lit "POST")
            (account_form (lit " ada ") (lit "hunter22")) (lit "s") users)
     = users.
Proof.
  cbn zeta. split.
  - apply (@register_keeps_usernames_unique ucd_basic password_plain false (lit "POST")
             (account_form (lit " bob ") (lit "hunter22")) (lit "s")
             [{| username := lit "ada"; password_hash := lit "x$secret1" |}]).
    compute_done.
  - vm_compute. reflexivity.
Defined.

(** X23: a registration that was answered with the redirect to the login
    page has stored a row the login view accepts: a later login of a
    client that is not authenticated, with a user name that strips to the
    same text and with the same password, calls [login_user] on that row
    and redirects to the [next] argument when it is given and not empty,
    and to the dashboard otherwise. *)
Theorem registered_user_can_log_in `{UnicodeDB} `{PasswordLib}
    (form form' args : gmap str str) (salt : str) (users users' : list user)
    (r : flask_reply) :
  register false (lit "POST") form salt users = (r, users') ->
  body r = RedirectUrlFor (lit "login") ->
  strip (form_get form' (lit "username")) = strip (form_get form (lit "username")) ->
  form_get form' (lit "password") = form_get form (lit "password") ->
  exists u,
    users' = users ++ [u]
    /\ username u = strip (form_get form (lit "username"))
    /\ login false (lit "POST") form' args users'
       = ({| flashed := None;
             body := match args !! lit "next" with
                     | Some (c :: url) => RedirectTo (c :: url)
                     | _ => RedirectUrlFor (lit "dashboard")
                     end |},
          Some u).
Proof.
  intros Hreg Hbody Hname Hpw.
  destruct (register_post form salt users users' r Hreg Hbody)
    as (_ & _ & _ & _ & Hfind & Husers & _).
  eexists. split; [exact Husers|]. split; [reflexivity|].
  unfold login.
  destruct (decide (lit "POST" = lit "POST")) as [_|Hno]; [|contradiction].
  rewrite Hname, Hpw, Husers.
  rewrite (first_by_username_snoc users
             {| username := strip (form_get form (lit "username"));
                password_hash := generate_password_hash salt
                                   (form_get form (lit "password")) |} Hfind).
  cbn [password_hash]. now rewrite check_generated.
Qed.

Lemma registered_user_can_log_in_witness :
  let users := [{| username := lit "ada"; password_hash := lit "x$secret1" |}] in
  let users' := snd (@register ucd_basic password_plain false (lit "POST")
                       (account_form (lit " bob ") (lit "hunter22")) (lit "s") users) in
  @login ucd_basic password_plain false (lit "POST")
    (account_form (lit "bob") (lit "hunter22")) {[ lit "next" := lit "/generate" ]}
    users'
  = ({| flashed := None; body := RedirectTo (lit "/generate") |},
     Some {| username := lit "bob"; password_hash := lit "s$hunter22" |}).
Proof.
  cbn zeta.
  set (users := [{| username := lit "ada"; password_hash := lit "x$secret1" |}]).
  set (run := @register ucd_basic password_plain false (lit "POST")
                (account_form (lit " bob ") (lit "hunter22")) (lit "s") users).
  assert (Hbody : body (fst run) = RedirectUrlFor (lit "login"))
    by (vm_compute; reflexivity).
  destruct (@registered_user_can_log_in ucd_basic password_plain
              (account_form (lit " bob ") (lit "hunter22"))
              (account_form (lit "bob") (lit "hunter22"))
              {[ lit "next" := lit "/generate" ]} (lit "s") users (snd run) (fst run)
              (surjective_pairing run) Hbody eq_refl eq_refl)
    as (u & Husers & Hu & Hlogin).
  rewrite Hlogin. f_equal. f_equal.
  assert (Hsnoc : snd run = users ++ [{| username := lit "bob";
                                         password_hash := lit "s$hunter22" |}])
    by (vm_compute; reflexivity).
  rewrite Hsnoc in Husers. apply app_inv_head in Husers. now injection Husers as <-.
Defined.

(** X24: the login view calls [login_user] only for a client that is not
    authenticated, on a POST, and only with the first row of the table
    whose name is the submitted name stripped and whose stored hash checks
    against the submitted password; in every other case nobody is logged
    in. *)
Theorem login_needs_valid_credentials `{UnicodeDB} `{PasswordLib}
    (is_authenticated : bool) (method : str) (form args : gmap str str)
    (users : list user) (u : user) :
  snd (login is_authenticated method form args users) = Some u <->
  is_authenticated = false /\ method = lit "POST"
  /\ first_by_username (strip (form_get form (lit "username"))) users = Some u
  /\ check_password_hash (password_hash u) (form_get form (lit "password")) = true.
Proof.
  unfold login. split.
  - destruct is_authenticated; [discriminate|].
    destruct (decide (method = lit "POST")) as [Hm|Hm]; [|discriminate].
    destruct (first_by_username _ users) as [v|]; [|discriminate].
    destruct (check_password_hash (password_hash v) _) eqn:Hcheck; [|discriminate].
    cbn [snd]. intros [= ->]. now repeat split.
  - intros (-> & -> & Hfind & Hcheck).
    destruct (decide (lit "POST" = lit "POST")) as [_|Hno]; [|contradiction].
    now rewrite Hfind, Hcheck.
Qed.
